(** * Recommendation orchestration layer: shallow embedding and properties

    The development embeds
    - [src/utils/recommendationService.js] (the external scoring client:
      six operations over an axios instance, each wrapped in try/catch), and
    - [src/controllers/recommendation.controller.js] (the request handlers
      [getRecommendations], [getSimilar] and [syncVideoEmbeddings])
    as functions in a small monad that threads the log of outgoing HTTP
    calls and the console, and that can complete abruptly (a JavaScript
    [throw]).  The document store is a record of three collections, each a
    list in natural order; an aggregation pipeline is the composition of
    its stages on lists.  Three handlers of the video controller
    ([getVideoById], [deleteVideo], [togglePublishStatus]), which change
    the videos the recommendations read, are embedded as functions from
    the store to a settlement and the store they leave.

    Modelling conventions.
    - An ObjectId is its 24-hex string; [toString] and
      [new mongoose.Types.ObjectId] are the identity on the ids stored in
      the collections and on the ids of the wire contract.
    - [parseInt(limit)] is the positive integer a [$limit] stage accepts;
      a request carries it already parsed ([None] when the query has no
      [limit], where the handlers default to 20 and 10).
    - An external payload is typed by the wire contract.  A body, or a
      list-valued field of it, that is [null], [undefined] or otherwise
      falsy is [None]; an array, empty or not, is [Some l] (an array is
      truthy in JavaScript).
    - [$sort] is a sort by the given key; the order among equal keys is
      left to the sorting function, and no property below depends on it.
    - The handlers are modelled without the [asyncHandler] wrapper, which
      forwards a rejection to the error middleware: a thrown [ApiError]
      is the abrupt completion of the handler.  Queries on the document
      store always succeed.
    - A video document holds the fields the embedded code reads or
      writes; the [updatedAt] timestamp, which every update rewrites, is
      not among them, and no property below speaks of it. *)

From Stdlib Require Import QArith.
From stdpp Require Import base strings list gmap sorting.

Local Open Scope string_scope.
Local Open Scope Z_scope.

Abbreviation ObjectId := string.

(** ** The document store *)

Record Video := mkVideo {
  vid : ObjectId;
  owner : ObjectId;
  title : string;
  description : string;
  views : Z;
  createdAt : Z;
  isPublished : bool
}.

Global Instance Video_eq_dec : EqDecision Video.
Proof. solve_decision. Defined.

Record User := mkUser {
  uid : ObjectId;
  username : string;
  fullName : string;
  avatar : string;
  watchHistory : list ObjectId
}.

(** A like targets a video, a comment or a tweet; [video] is [None] when
    the field is missing or null. *)
Record Like := mkLike {
  likedBy : ObjectId;
  video : option ObjectId
}.

Record Db := mkDb {
  Videos : list Video;
  Users : list User;
  Likes : list Like
}.

(** Result of [$project: { username: 1, fullName: 1, avatar: 1 }]
    ([_id] is kept by default). *)
Record OwnerCard := mkOwnerCard {
  oc_id : ObjectId;
  oc_username : string;
  oc_fullName : string;
  oc_avatar : string
}.

(** A video document after the [$lookup] / [$addFields] stages: the
    [owner] field is replaced by the first matching user card, and is
    missing when no user matches. *)
Record VideoDoc := mkVideoDoc {
  doc : Video;
  doc_owner : option OwnerCard
}.

(** ** Queries *)

Definition User_findById (db : Db) (id : ObjectId) : option User :=
  head (filter (λ u, uid u = id) (Users db)).

Definition Video_findById (db : Db) (id : ObjectId) : option Video :=
  head (filter (λ v, vid v = id) (Videos db)).

(** [Like.find({ likedBy: userId, video: { $exists: true, $ne: null } })] *)
Definition Like_find_video_likes (db : Db) (userId : ObjectId) : list Like :=
  filter (λ l, likedBy l = userId ∧ is_Some (video l)) (Likes db).

(** [Video.find({ isPublished: true })] *)
Definition Video_find_published (db : Db) : list Video :=
  filter (λ v, isPublished v = true) (Videos db).

(** *** Pipeline stages *)

(** [$sort: { views: -1, createdAt: -1 }]: [a] may precede [b]. *)
Definition by_views_createdAt_desc (a b : Video) : Prop :=
  views b < views a ∨ (views a = views b ∧ createdAt b ≤ createdAt a).

(** [$sort: { views: -1 }] *)
Definition by_views_desc (a b : Video) : Prop := views b ≤ views a.

Global Instance by_views_createdAt_desc_dec a b :
  Decision (by_views_createdAt_desc a b).
Proof. unfold by_views_createdAt_desc. apply _. Defined.

Global Instance by_views_desc_dec a b : Decision (by_views_desc a b).
Proof. unfold by_views_desc. apply _. Defined.

Definition sort_stage (R : relation Video) `{∀ a b, Decision (R a b)}
  (l : list Video) : list Video := merge_sort R l.

Definition limit_stage {A} (n : positive) (l : list A) : list A :=
  take (Pos.to_nat n) l.

Definition owner_card (u : User) : OwnerCard :=
  {| oc_id := uid u; oc_username := username u;
     oc_fullName := fullName u; oc_avatar := avatar u |}.

(** [$lookup] from "users" on [owner = _id], then
    [$addFields: { owner: { $first: "$owner" } }]. *)
Definition lookup_owner (db : Db) (v : Video) : VideoDoc :=
  {| doc := v;
     doc_owner := head (owner_card <$> filter (λ u, uid u = owner v) (Users db)) |}.

(** The three pipelines of [getRecommendations] and the two of
    [getSimilar]. *)

Definition popular_pipeline (db : Db) (limit : positive) : list VideoDoc :=
  lookup_owner db <$>
    limit_stage limit
      (sort_stage by_views_createdAt_desc
         (filter (λ v, isPublished v = true) (Videos db))).

Definition popular_excluding_pipeline (db : Db) (excludeVideoIds : list ObjectId)
  (limit : positive) : list VideoDoc :=
  lookup_owner db <$>
    limit_stage limit
      (sort_stage by_views_createdAt_desc
         (filter (λ v, isPublished v = true ∧ vid v ∉ excludeVideoIds) (Videos db))).

Definition by_ids_pipeline (db : Db) (ids : list ObjectId) : list VideoDoc :=
  lookup_owner db <$> filter (λ v, vid v ∈ ids) (Videos db).

Definition same_owner_pipeline (db : Db) (videoId : ObjectId) (source : Video)
  (limit : positive) : list VideoDoc :=
  lookup_owner db <$>
    limit_stage limit
      (sort_stage by_views_desc
         (filter (λ v, isPublished v = true ∧ vid v ≠ videoId ∧ owner v = owner source)
            (Videos db))).

(** ** JavaScript [Set] and [Map] *)

(** A [Set] of strings keeps its elements in insertion order; adding a
    present element changes nothing. *)
Definition Set_add (s : list string) (x : string) : list string :=
  if decide (x ∈ s) then s else s ++ [x].

Definition new_Set (l : list string) : list string := foldl Set_add [] l.

(** [new Map(entries)]: entries are set from left to right, a later entry
    overwrites an earlier one with the same key. *)
Definition new_Map {V} (entries : list (string * V)) : gmap string V :=
  foldl (λ m kv, <[kv.1 := kv.2]> m) ∅ entries.

Definition Map_has {V} (m : gmap string V) (k : string) : bool :=
  bool_decide (is_Some (m !! k)).

Definition Map_get {V} (m : gmap string V) (k : string) : option V := m !! k.

(** ** Wire shapes of the external service *)

Record VideoMetadata := mkVideoMetadata {
  md_views : Z;
  md_created_at : Z
}.

Record PersonalizedRequest := mkPersonalizedRequest {
  user_id : ObjectId;
  watched_video_ids : list ObjectId;
  liked_video_ids : list ObjectId;
  video_metadata : gmap string VideoMetadata;
  rq_limit : positive;
  exclude_video_ids : list ObjectId
}.

Record ScoredRecommendation := mkScored {
  video_id : ObjectId;
  final_score : Q;
  score_breakdown : list (string * Q)
}.

Record PersonalizedPayload := mkPersonalizedPayload {
  recommendations : option (list ScoredRecommendation);
  watched_count : Z;
  liked_count : Z
}.

Record SimilarityResult := mkSimilarity {
  sim_video_id : ObjectId;
  similarity_score : Q
}.

Record SimilarPayload := mkSimilarPayload {
  similar_videos : option (list SimilarityResult)
}.

Record EmbeddingInput := mkEmbeddingInput {
  in_video_id : ObjectId;
  in_title : string;
  in_description : string
}.

Record SyncSummary := mkSyncSummary {
  processed : Z;
  new_count : Z;
  errors : list string
}.

Record DeleteAck := mkDeleteAck { ack_message : string }.

Record Health := mkHealth {
  status : string;
  error : option string
}.

(** ** The effect monad *)

(** One outgoing request of the axios instance. *)
Inductive Call :=
| PostPersonalized (rq : PersonalizedRequest)
| GetSimilar (videoId : ObjectId) (limit : positive)
| PostBatch (videos : list EmbeddingInput)
| PostSync (videos : list EmbeddingInput)
| DeleteEmbedding (videoId : ObjectId)
| GetHealth.

(** What the transport does with a request: it resolves with a body, or
    it rejects (connection refused, timeout, non-2xx status) with an error
    carrying a message. *)
Inductive Transport (A : Type) :=
| Replied (data : A)
| Rejected (message : string).
Arguments Replied {A} data.
Arguments Rejected {A} message.

(** The external service, as seen from this process.  The batch
    endpoint answers with a result of the shape of the sync summary. *)
Record Service := mkService {
  on_personalized : PersonalizedRequest → Transport (option PersonalizedPayload);
  on_similar : ObjectId → positive → Transport (option SimilarPayload);
  on_batch : list EmbeddingInput → Transport (option SyncSummary);
  on_sync : list EmbeddingInput → Transport (option SyncSummary);
  on_delete : ObjectId → Transport (option DeleteAck);
  on_health : Transport Health
}.

Inductive Exn :=
| ApiError (statusCode : nat) (message : string)
| AxiosError (message : string).

Definition exn_message (e : Exn) : string :=
  match e with
  | ApiError _ m => m
  | AxiosError m => m
  end.

Inductive Completion (A : Type) :=
| Normal (a : A)
| Abrupt (e : Exn).
Arguments Normal {A} a.
Arguments Abrupt {A} e.

Record World := mkWorld {
  calls : list Call;
  console : list (string * string)
}.

Definition quiet : World := {| calls := []; console := [] |}.

Definition M (A : Type) : Type := Service → World → Completion A * World.

Global Instance M_ret : MRet M := λ A a _ w, (Normal a, w).

Global Instance M_bind : MBind M := λ A B f m svc w,
  match m svc w with
  | (Normal a, w') => f a svc w'
  | (Abrupt e, w') => (Abrupt e, w')
  end.

Definition throw {A} (e : Exn) : M A := λ _ w, (Abrupt e, w).

Definition try_catch {A} (body : M A) (handler : Exn → M A) : M A :=
  λ svc w,
    match body svc w with
    | (Normal a, w') => (Normal a, w')
    | (Abrupt e, w') => handler e svc w'
    end.

Definition console_error (label message : string) : M () :=
  λ _ w, (Normal (), {| calls := calls w; console := console w ++ [(label, message)] |}).

(** A request through [recommendationClient]: it is logged, and the
    promise resolves with the body or rejects. *)
Definition send {A} (c : Call) (reply : Service → Transport A) : M A :=
  λ svc w,
    let w' := {| calls := calls w ++ [c]; console := console w |} in
    match reply svc with
    | Replied d => (Normal d, w')
    | Rejected msg => (Abrupt (AxiosError msg), w')
    end.

Definition run {A} (m : M A) (svc : Service) : Completion A * World := m svc quiet.

(** ** The external scoring client ([recommendationService.js]) *)

(** The defaults [limit = 20] and [excludeVideoIds = []] of the source
    are never used: the controller passes every argument. *)
Definition getPersonalizedRecommendations (userId : ObjectId)
  (watchedVideoIds likedVideoIds : list ObjectId)
  (videoMetadata : gmap string VideoMetadata) (limit : positive)
  (excludeVideoIds : list ObjectId) : M (option PersonalizedPayload) :=
  try_catch
    (let rq := {| user_id := userId;
                  watched_video_ids := watchedVideoIds;
                  liked_video_ids := likedVideoIds;
                  video_metadata := videoMetadata;
                  rq_limit := limit;
                  exclude_video_ids := excludeVideoIds |} in
     data ← send (PostPersonalized rq) (λ svc, on_personalized svc rq);
     mret data)
    (λ error,
       console_error "Recommendation service error:" (exn_message error);;
       mret None).

Definition getSimilarVideos (videoId : ObjectId) (limit : positive)
  : M (option SimilarPayload) :=
  try_catch
    (data ← send (GetSimilar videoId limit) (λ svc, on_similar svc videoId limit);
     mret data)
    (λ error,
       console_error "Similar videos service error:" (exn_message error);;
       mret None).

Definition submitBatchEmbeddings (videos : list EmbeddingInput)
  : M (option SyncSummary) :=
  try_catch
    (data ← send (PostBatch videos) (λ svc, on_batch svc videos);
     mret data)
    (λ error,
       console_error "Embedding batch submission error:" (exn_message error);;
       mret None).

Definition syncEmbeddings (videos : list EmbeddingInput) : M (option SyncSummary) :=
  try_catch
    (data ← send (PostSync videos) (λ svc, on_sync svc videos);
     mret data)
    (λ error,
       console_error "Embedding sync error:" (exn_message error);;
       mret None).

Definition deleteEmbedding (videoId : ObjectId) : M (option DeleteAck) :=
  try_catch
    (data ← send (DeleteEmbedding videoId) (λ svc, on_delete svc videoId);
     mret data)
    (λ error,
       console_error "Embedding deletion error:" (exn_message error);;
       mret None).

Definition checkHealth : M Health :=
  try_catch
    (data ← send GetHealth on_health;
     mret data)
    (λ error,
       console_error "Recommendation service health check failed:" (exn_message error);;
       mret {| status := "unhealthy"; error := Some (exn_message error) |}).

(** ** The controller ([recommendation.controller.js]) *)

(** [new ApiResponse(statusCode, data, message)] *)
Record ApiResponse (D : Type) := mkApiResponse {
  statusCode : nat;
  data : D;
  message : string
}.
Arguments mkApiResponse {D} _ _ _.
Arguments statusCode {D} _.
Arguments data {D} _.
Arguments message {D} _.

(** [res.status(code).json(body)] *)
Record HttpResponse (D : Type) := mkHttpResponse {
  http_status : nat;
  body : ApiResponse D
}.
Arguments mkHttpResponse {D} _ _.
Arguments http_status {D} _.
Arguments body {D} _.

Definition respond {D} (code : nat) (d : D) (msg : string) : M (HttpResponse D) :=
  mret (mkHttpResponse code (mkApiResponse code d msg)).

(** An entry of a personalized answer.  [sv_video] is the value of
    [videoMap.get(r.video_id)], [None] for [undefined]. *)
Record ScoredVideo := mkScoredVideo {
  sv_video : option VideoDoc;
  score : Q;
  scoreBreakdown : list (string * Q)
}.

Record UserProfile := mkUserProfile {
  watchedCount : Z;
  likedCount : Z
}.

(** The two shapes of the [data] of [getRecommendations]: the fallbacks
    send [{ recommendations, fallback, reason }] with bare video
    documents, the success path
    [{ recommendations, userProfile, fallback }] with scored entries. *)
Inductive RecommendationsData :=
| PopularData (recs : list VideoDoc) (fallback : bool) (reason : string)
| PersonalizedData (recs : list ScoredVideo) (userProfile : UserProfile) (fallback : bool).

Record RecommendationsRequest := mkRecommendationsRequest {
  req_user_id : ObjectId;
  query_limit : option positive
}.

(** The behavioural signals of a user, as the handler derives them:
    [user?.watchHistory?.map(id => id.toString()) || []] and
    [likedDocs.map(doc => doc.video.toString())]. *)
Definition watchedVideoIds (db : Db) (userId : ObjectId) : list ObjectId :=
  default [] (watchHistory <$> User_findById db userId).

Definition likedVideoIds (db : Db) (userId : ObjectId) : list ObjectId :=
  omap video (Like_find_video_likes db userId).

(** [[...new Set([...watchedVideoIds, ...likedVideoIds])]] *)
Definition excludeVideoIds (db : Db) (userId : ObjectId) : list ObjectId :=
  new_Set (watchedVideoIds db userId ++ likedVideoIds db userId).

(** The object filled by [allVideos.forEach(v => videoMetadata[id] = ...)]. *)
Definition videoMetadata (db : Db) : gmap string VideoMetadata :=
  foldl (λ (m : gmap string VideoMetadata) v,
           <[vid v := {| md_views := views v; md_created_at := createdAt v |}]> m)
        ∅ (Video_find_published db).

(** The re-join of a ranked list with the catalog (lines 132-162):
    the documents of the recommended ids are fetched, keyed by id in a
    [Map], and the ranked list is filtered and mapped against it. *)
Definition orderedResults (db : Db) (ranked : list ScoredRecommendation)
  : list ScoredVideo :=
  let recommendedIds := video_id <$> ranked in
  let videos := by_ids_pipeline db recommendedIds in
  let videoMap := new_Map ((λ v, (vid (doc v), v)) <$> videos) in
  (λ r, {| sv_video := Map_get videoMap (video_id r);
           score := final_score r;
           scoreBreakdown := score_breakdown r |})
    <$> filter (λ r, Map_has videoMap (video_id r) = true) ranked.

Definition getRecommendations (db : Db) (req : RecommendationsRequest)
  : M (HttpResponse RecommendationsData) :=
  let limit := default 20%positive (query_limit req) in
  let userId := req_user_id req in
  let watchedVideoIds := watchedVideoIds db userId in
  let likedVideoIds := likedVideoIds db userId in
  if bool_decide (length watchedVideoIds = 0%nat ∧ length likedVideoIds = 0%nat) then
    let popularVideos := popular_pipeline db limit in
    respond 200
      (PopularData popularVideos true
         "No user history available - showing popular videos")
      "Popular videos fetched as fallback"
  else
    let excludeVideoIds := excludeVideoIds db userId in
    let videoMetadata := videoMetadata db in
    recommendations ←
      getPersonalizedRecommendations userId watchedVideoIds likedVideoIds
        videoMetadata limit excludeVideoIds;
    match recommendations with
    | Some ({| recommendations := Some ranked |} as r) =>
        let orderedResults := orderedResults db ranked in
        respond 200
          (PersonalizedData orderedResults
             {| watchedCount := watched_count r; likedCount := liked_count r |}
             false)
          "Personalized recommendations fetched successfully"
    | _ =>
        let fallbackVideos := popular_excluding_pipeline db excludeVideoIds limit in
        respond 200
          (PopularData fallbackVideos true
             "Recommendation service unavailable - using popularity fallback")
          "Fallback recommendations fetched"
    end.

(** An entry of a similar-videos answer. *)
Record SimilarVideo := mkSimilarVideo {
  sim_video : option VideoDoc;
  similarityScore : Q
}.

Inductive SimilarData :=
| SimilarFallbackData (sourceVideo : string) (similarVideos : list VideoDoc) (fallback : bool)
| SimilarScoredData (sourceVideo : string) (similarVideos : list SimilarVideo) (fallback : bool).

Record SimilarRequest := mkSimilarRequest {
  params_videoId : string;
  similar_query_limit : option positive
}.

(** The re-join of [getSimilar] (lines 242-270). *)
Definition orderedSimilar (db : Db) (ranked : list SimilarityResult)
  : list SimilarVideo :=
  let similarIds := sim_video_id <$> ranked in
  let videos := by_ids_pipeline db similarIds in
  let videoMap := new_Map ((λ v, (vid (doc v), v)) <$> videos) in
  (λ s, {| sim_video := Map_get videoMap (sim_video_id s);
           similarityScore := similarity_score s |})
    <$> filter (λ s, Map_has videoMap (sim_video_id s) = true) ranked.

Section GetSimilar.

(** [mongoose.isValidObjectId], on the strings a route parameter can
    hold. *)
Variable isValidObjectId : string → bool.

Definition getSimilar (db : Db) (req : SimilarRequest) : M (HttpResponse SimilarData) :=
  let videoId := params_videoId req in
  let limit := default 10%positive (similar_query_limit req) in
  if negb (isValidObjectId videoId) then throw (ApiError 400 "Invalid video ID")
  else
    match Video_findById db videoId with
    | None => throw (ApiError 404 "Video not found")
    | Some video =>
        similarResult ← getSimilarVideos videoId limit;
        match similarResult ≫= similar_videos with
        | None =>
            let fallbackVideos := same_owner_pipeline db videoId video limit in
            respond 200 (SimilarFallbackData videoId fallbackVideos true)
              "Fallback similar videos fetched"
        | Some ranked =>
            let orderedResults := orderedSimilar db ranked in
            respond 200 (SimilarScoredData videoId orderedResults false)
              "Similar videos fetched successfully"
        end
    end.

End GetSimilar.

(** The batch of [syncVideoEmbeddings]:
    [videos.map(v => ({ video_id, title, description }))] over the
    published videos. *)
Definition videosForSync (db : Db) : list EmbeddingInput :=
  (λ v, {| in_video_id := vid v; in_title := title v; in_description := description v |})
    <$> Video_find_published db.

Inductive SyncData :=
| NothingToSync (synced : Z) (note : string)
| Synced (result : SyncSummary).

Definition syncVideoEmbeddings (db : Db) : M (HttpResponse SyncData) :=
  let videos := Video_find_published db in
  if bool_decide (length videos = 0%nat) then
    respond 200 (NothingToSync 0 "No videos to sync") "No videos available for sync"
  else
    let videosForSync := videosForSync db in
    result ← syncEmbeddings videosForSync;
    match result with
    | None => throw (ApiError 503 "Recommendation service unavailable")
    | Some result => respond 200 (Synced result) "Embeddings synced successfully"
    end.

(** ** Vocabulary of the statements *)

Definition logged (c : Call) (w : World) : World :=
  {| calls := calls w ++ [c]; console := console w |}.

Definition reported (label message : string) (w : World) : World :=
  {| calls := calls w; console := console w ++ [(label, message)] |}.

(** Shape shared by the five operations that answer [null] on error. *)
Definition guarded {A} (c : Call) (label : string) (t : Transport (option A))
  (w : World) : Completion (option A) * World :=
  match t with
  | Replied d => (Normal d, logged c w)
  | Rejected msg => (Normal None, reported label msg (logged c w))
  end.

Definition request_of (db : Db) (req : RecommendationsRequest) : PersonalizedRequest :=
  {| user_id := req_user_id req;
     watched_video_ids := watchedVideoIds db (req_user_id req);
     liked_video_ids := likedVideoIds db (req_user_id req);
     video_metadata := videoMetadata db;
     rq_limit := default 20%positive (query_limit req);
     exclude_video_ids := excludeVideoIds db (req_user_id req) |}.

(** What an operation hands back for a given behaviour of the transport:
    the body as it is, or the failure signal. *)
Definition handed_back {A} (t : Transport A) (failure : string → A) : A :=
  match t with
  | Replied d => d
  | Rejected msg => failure msg
  end.

Definition has_history (db : Db) (userId : ObjectId) : Prop :=
  watchedVideoIds db userId ≠ [] ∨ likedVideoIds db userId ≠ [].

Definition limit_of (req : RecommendationsRequest) : positive :=
  default 20%positive (query_limit req).

Definition similar_limit_of (req : SimilarRequest) : positive :=
  default 10%positive (similar_query_limit req).

(** The external reply carries no ranked list: the request was rejected,
    the body is empty, or its [recommendations] field is missing. *)
Definition lacks_ranked_list (t : Transport (option PersonalizedPayload)) : Prop :=
  match t with
  | Rejected _ => True
  | Replied None => True
  | Replied (Some p) => recommendations p = None
  end.

(** The reading of C2 that counts a structurally empty ranked list among
    the replies without a usable list. *)
Definition lacks_or_empty (t : Transport (option PersonalizedPayload)) : Prop :=
  lacks_ranked_list t
  ∨ ∃ p, t = Replied (Some p) ∧ recommendations p = Some [].

(** The similarity reply carries no list: the request was rejected, the
    body is empty, or its [similar_videos] field is missing. *)
Definition lacks_similar_list (t : Transport (option SimilarPayload)) : Prop :=
  match t with
  | Rejected _ => True
  | Replied None => True
  | Replied (Some p) => similar_videos p = None
  end.

(** The reading of C7 that counts an empty similarity list among the
    replies without a usable list. *)
Definition lacks_similar_or_empty (t : Transport (option SimilarPayload)) : Prop :=
  lacks_similar_list t
  ∨ ∃ p, t = Replied (Some p) ∧ similar_videos p = Some [].

(** [out] is the list [candidates] sorted by [R] and cut after [limit]
    entries. *)
Definition ranked_prefix (R : relation Video) (candidates : list Video)
  (limit : positive) (out : list Video) : Prop :=
  ∃ sorted, sorted ≡ₚ candidates ∧ StronglySorted R sorted
            ∧ out = take (Pos.to_nat limit) sorted.

Definition in_catalog (db : Db) (id : ObjectId) : Prop := id ∈ vid <$> Videos db.

Global Instance in_catalog_dec db id : Decision (in_catalog db id).
Proof. unfold in_catalog. apply _. Defined.

(** An entry of the answer carries the catalog document of the ranked
    item, with the item's score and breakdown. *)
Definition rejoined (db : Db) (e : ScoredVideo) (r : ScoredRecommendation) : Prop :=
  (∃ v, v ∈ Videos db ∧ vid v = video_id r ∧ sv_video e = Some (lookup_owner db v))
  ∧ score e = final_score r ∧ scoreBreakdown e = score_breakdown r.

(** The ids listed in an answer, in order ([None] for an entry without a
    video document). *)
Definition answer_ids (d : RecommendationsData) : list (option ObjectId) :=
  match d with
  | PopularData recs _ _ => (λ v, Some (vid (doc v))) <$> recs
  | PersonalizedData recs _ _ => (λ e, (λ v, vid (doc v)) <$> sv_video e) <$> recs
  end.

(** The external list respects the requested [limit] and names no video
    twice. *)
Definition respects_limit (t : Transport (option PersonalizedPayload))
  (limit : positive) : Prop :=
  ∀ p ranked, t = Replied (Some p) → recommendations p = Some ranked →
    NoDup (video_id <$> ranked) ∧ (length ranked ≤ Pos.to_nat limit)%nat.

(** ** Scenarios *)

Module Scenario.

Definition owner1 : User := mkUser "O1" "owner1" "Owner One" "o1.png" [].
Definition U1 : User := mkUser "U1" "u1" "User One" "u1.png" ["V1"; "V2"].
Definition U0 : User := mkUser "U0" "u0" "User Zero" "u0.png" [].

Definition V4 : Video := mkVideo "V4" "O1" "four" "" 100 4 true.
Definition V5 : Video := mkVideo "V5" "O1" "five" "" 50 5 true.
Definition V7 : Video := mkVideo "V7" "O1" "seven" "" 70 7 true.
Definition V8 : Video := mkVideo "V8" "O1" "eight" "" 500 8 false.

Definition people : list User := [owner1; U1; U0].
Definition likes : list Like := [mkLike "U1" (Some "V3"); mkLike "U1" None].

(** [V4] and [V5] published, stored in the order [V5], [V4]. *)
Definition catalog_a : Db := mkDb [V5; V4] people likes.

(** [V7] published, [V8] unpublished, [V9] deleted. *)
Definition catalog_b : Db := mkDb [V8; V7] people likes.

Definition empty_catalog : Db := mkDb [] people likes.

Definition as_U1 : RecommendationsRequest := mkRecommendationsRequest "U1" (Some 10%positive).
Definition as_U0 : RecommendationsRequest := mkRecommendationsRequest "U0" (Some 1%positive).

Definition refused : string := "connect ECONNREFUSED".

Definition unreachable : Service :=
  {| on_personalized := λ _, Rejected refused;
     on_similar := λ _ _, Rejected refused;
     on_batch := λ _, Rejected refused;
     on_sync := λ _, Rejected refused;
     on_delete := λ _, Rejected refused;
     on_health := Rejected refused |}.

(** A service that answers every personalized request with the body
    [body] and every similarity request with [sbody]. *)
Definition answering (body : option PersonalizedPayload) (sbody : option SimilarPayload)
  : Service :=
  {| on_personalized := λ _, Replied body;
     on_similar := λ _ _, Replied sbody;
     on_batch := λ _, Replied (Some (mkSyncSummary 0 0 []));
     on_sync := λ videos, Replied (Some (mkSyncSummary (Z.of_nat (length videos)) 0 []));
     on_delete := λ _, Replied (Some (mkDeleteAck "deleted"));
     on_health := Replied (mkHealth "healthy" None) |}.

Definition ranking (l : list ScoredRecommendation) : Service :=
  answering (Some (mkPersonalizedPayload (Some l) 2 1)) None.

Definition r9 : ScoredRecommendation := mkScored "V9" 0.9 [("content", 0.9%Q)].
Definition r8 : ScoredRecommendation := mkScored "V8" 0.85 [].
Definition r7 : ScoredRecommendation := mkScored "V7" 0.8 [("content", 0.8%Q)].

Definition V6 : Video := mkVideo "V6" "O2" "six" "" 60 6 true.

(** [V6] is the only video of its owner. *)
Definition catalog_c : Db := mkDb [V4; V6; V5] people likes.

(** The ids of the scenarios are two characters long; this validator
    stands for [isValidObjectId] on them. *)
Definition two_chars (s : string) : bool := bool_decide (String.length s = 2%nat).

Definition similar_to (id : string) : SimilarRequest := mkSimilarRequest id None.

End Scenario.

(** ** Further vocabulary *)

(** An entry of a similar-videos answer carries the catalog document of
    the ranked item and its similarity score. *)
Definition rejoined_similar (db : Db) (e : SimilarVideo) (s : SimilarityResult) : Prop :=
  (∃ v, v ∈ Videos db ∧ vid v = sim_video_id s ∧ sim_video e = Some (lookup_owner db v))
  ∧ similarityScore e = similarity_score s.

(** The re-join of one ranked item, on its own: the entry built from the
    last stored video with the item's id, when there is one. *)
Definition rejoin_one (db : Db) (r : ScoredRecommendation) : option ScoredVideo :=
  (λ v, {| sv_video := Some (lookup_owner db v);
           score := final_score r;
           scoreBreakdown := score_breakdown r |})
    <$> last (filter (λ v, vid v = video_id r) (Videos db)).

Definition metadata_of (v : Video) : VideoMetadata :=
  {| md_views := views v; md_created_at := createdAt v |}.

(** The world after one request [c] whose failure is reported under
    [label]. *)
Definition after_request {A} (c : Call) (label : string) (t : Transport A)
  (w : World) : World :=
  {| calls := calls w ++ [c];
     console := console w ++ match t with
                             | Replied _ => []
                             | Rejected msg => [(label, msg)]
                             end |}.

(** The candidates of the two popularity fallbacks of
    [getRecommendations]. *)
Definition fallback_candidates (db : Db) (userId : ObjectId) : list Video :=
  filter (λ v, isPublished v = true ∧ vid v ∉ excludeVideoIds db userId) (Videos db).

(** The candidates of the fallback of [getSimilar]. *)
Definition same_owner_candidates (db : Db) (videoId : ObjectId) (source : Video)
  : list Video :=
  filter (λ v, isPublished v = true ∧ vid v ≠ videoId ∧ owner v = owner source) (Videos db).

(** The documents listed in an answer, in order ([None] for an entry
    whose [video] is undefined). *)
Definition answer_docs (d : RecommendationsData) : list (option VideoDoc) :=
  match d with
  | PopularData recs _ _ => Some <$> recs
  | PersonalizedData recs _ _ => sv_video <$> recs
  end.

(** ** The video controller: handlers that change the stored videos *)

(** These handlers send nothing to the external service; they read and
    write the video collection.  A handler maps the store to its
    settlement and the store it leaves. *)

Inductive Raised :=
| RaisedApiError (statusCode : nat) (message : string)
| RaisedTypeError (what : string).

Inductive Settled (A : Type) :=
| Fulfilled (a : A)
| Refused (e : Raised).
Arguments Fulfilled {A} a.
Arguments Refused {A} e.

Definition Store (A : Type) : Type := Db → Settled A * Db.

Global Instance Store_ret : MRet Store := λ A a db, (Fulfilled a, db).

Global Instance Store_bind : MBind Store := λ A B f m db,
  match m db with
  | (Fulfilled a, db') => f a db'
  | (Refused e, db') => (Refused e, db')
  end.

Definition raise {A} (e : Raised) : Store A := λ db, (Refused e, db).

Definition query {A} (q : Db → A) : Store A := λ db, (Fulfilled (q db), db).

Fixpoint update_first (id : ObjectId) (f : Video → Video) (l : list Video) : list Video :=
  match l with
  | [] => []
  | v :: l' => if decide (vid v = id) then f v :: l' else v :: update_first id f l'
  end.

Fixpoint remove_first (id : ObjectId) (l : list Video) : list Video :=
  match l with
  | [] => []
  | v :: l' => if decide (vid v = id) then l' else v :: remove_first id l'
  end.

(** [Video.findByIdAndUpdate(id, update, { new: true })]: the first
    stored video with the id is updated; the result is the updated
    document, or null. *)
Definition Video_findByIdAndUpdate (id : ObjectId) (f : Video → Video)
  : Store (option Video) :=
  λ db, (Fulfilled (f <$> Video_findById db id),
         {| Videos := update_first id f (Videos db);
            Users := Users db; Likes := Likes db |}).

(** [Video.findByIdAndDelete(id)] *)
Definition Video_findByIdAndDelete (id : ObjectId) : Store (option Video) :=
  λ db, (Fulfilled (Video_findById db id),
         {| Videos := remove_first id (Videos db);
            Users := Users db; Likes := Likes db |}).

(** [{ $set: { isPublished: b } }] and [{ $inc: { views: 1 } }] *)
Definition set_isPublished (b : bool) (v : Video) : Video :=
  {| vid := vid v; owner := owner v; title := title v; description := description v;
     views := views v; createdAt := createdAt v; isPublished := b |}.

Definition inc_views (v : Video) : Video :=
  {| vid := vid v; owner := owner v; title := title v; description := description v;
     views := views v + 1; createdAt := createdAt v; isPublished := isPublished v |}.

Definition reply {D} (code : nat) (d : D) (msg : string) : Store (HttpResponse D) :=
  mret (mkHttpResponse code (mkApiResponse code d msg)).

Record VideoRequest := mkVideoRequest {
  video_params_videoId : string;
  video_req_user_id : ObjectId
}.

Section VideoController.

Variable isValidObjectId : string → bool.

Definition getVideoById (req : VideoRequest) : Store (HttpResponse VideoDoc) :=
  let videoId := video_params_videoId req in
  if negb (isValidObjectId videoId) then raise (RaisedApiError 400 "Invalid video ID")
  else
    video ← query (λ db, lookup_owner db <$> filter (λ v, vid v = videoId) (Videos db));
    match video with
    | [] => raise (RaisedApiError 404 "Video not found")
    | first :: _ =>
        Video_findByIdAndUpdate videoId inc_views;;
        reply 200 first "Video fetched successfully"
    end.

Definition deleteVideo (req : VideoRequest) : Store (HttpResponse string) :=
  let videoId := video_params_videoId req in
  if negb (isValidObjectId videoId) then raise (RaisedApiError 400 "Invalid video ID")
  else
    video ← query (λ db, Video_findById db videoId);
    match video with
    | None => raise (RaisedApiError 404 "Video not found")
    | Some video =>
        if bool_decide (owner video ≠ video_req_user_id req)
        then raise (RaisedApiError 403 "You are not authorized to delete this video")
        else
          Video_findByIdAndDelete videoId;;
          reply 200 videoId "Video deleted successfully"
    end.

Definition togglePublishStatus (req : VideoRequest) : Store (HttpResponse Video) :=
  let videoId := video_params_videoId req in
  if negb (isValidObjectId videoId) then raise (RaisedApiError 400 "Invalid video ID")
  else
    video ← query (λ db, Video_findById db videoId);
    match video with
    | None => raise (RaisedApiError 404 "Video not found")
    | Some video =>
        if bool_decide (owner video ≠ video_req_user_id req)
        then raise (RaisedApiError 403 "You are not authorized to update this video")
        else
          updatedVideo ←
            Video_findByIdAndUpdate videoId (set_isPublished (negb (isPublished video)));
          match updatedVideo with
          | None => raise (RaisedTypeError "Cannot read properties of null")
          | Some updatedVideo =>
              reply 200 updatedVideo
                (String.append "Video "
                   (String.append
                      (if isPublished updatedVideo then "published" else "unpublished")
                      " successfully"))
          end
    end.

End VideoController.

(** ** Further scenarios *)

Module Cases.

Definition s9 : SimilarityResult := mkSimilarity "V9" 0.7.
Definition s5 : SimilarityResult := mkSimilarity "V5" 0.6.
Definition s4 : SimilarityResult := mkSimilarity "V4" 0.5.

(** A service that answers every similarity request with the list [l]. *)
Definition similar_ranking (l : list SimilarityResult) : Service :=
  Scenario.answering None (Some (mkSimilarPayload (Some l))).

End Cases.

(** * Properties *)

(** ** The sort stage *)

Global Instance by_views_createdAt_desc_total : Total by_views_createdAt_desc.
Proof. intros a b. unfold by_views_createdAt_desc. lia. Qed.

Global Instance by_views_createdAt_desc_trans : Transitive by_views_createdAt_desc.
Proof. intros a b c. unfold by_views_createdAt_desc. lia. Qed.

Global Instance by_views_desc_total : Total by_views_desc.
Proof. intros a b. unfold by_views_desc. lia. Qed.

Global Instance by_views_desc_trans : Transitive by_views_desc.
Proof. intros a b c. unfold by_views_desc. lia. Qed.

Section SortStage.
Context (R : relation Video) `{∀ a b, Decision (R a b)}.
Context `{!Transitive R, !Total R}.

Lemma sort_stage_sorted l : StronglySorted R (sort_stage R l).
Proof. apply StronglySorted_merge_sort; assumption. Qed.

Lemma sort_stage_perm l : sort_stage R l ≡ₚ l.
Proof. apply merge_sort_Permutation. Qed.

Lemma sort_stage_elem_of l v : v ∈ sort_stage R l ↔ v ∈ l.
Proof. by rewrite sort_stage_perm. Qed.

Lemma sort_stage_length l : length (sort_stage R l) = length l.
Proof. by rewrite sort_stage_perm. Qed.
End SortStage.

Lemma limit_stage_length {A} n (l : list A) :
  (length (limit_stage n l) ≤ Pos.to_nat n)%nat.
Proof. unfold limit_stage. rewrite length_take. lia. Qed.

Lemma limit_stage_elem_of {A} n (l : list A) x : x ∈ limit_stage n l → x ∈ l.
Proof. unfold limit_stage. apply subseteq_take. Qed.

Lemma doc_lookup_owner db (l : list Video) : doc <$> (lookup_owner db <$> l) = l.
Proof. induction l as [|v l IH]; csimpl; [done|]. by rewrite IH. Qed.

(** ** [Set] and [Map] *)

Lemma Set_add_elem_of s x y : y ∈ Set_add s x ↔ y ∈ s ∨ y = x.
Proof.
  unfold Set_add. case_decide as Hin.
  - split; [by left | intros [?| ->]; done].
  - rewrite elem_of_app, list_elem_of_singleton. done.
Qed.

Lemma Set_add_NoDup s x : NoDup s → NoDup (Set_add s x).
Proof.
  intros Hs. unfold Set_add. case_decide as Hin; [done|].
  apply NoDup_app. split_and!; [done | | apply NoDup_singleton].
  intros y Hy ->%list_elem_of_singleton. done.
Qed.

Lemma foldl_Set_add_elem_of l s y : y ∈ foldl Set_add s l ↔ y ∈ s ∨ y ∈ l.
Proof.
  revert s. induction l as [|x l IH]; intros s; simpl.
  - rewrite elem_of_nil. tauto.
  - rewrite IH, Set_add_elem_of, elem_of_cons. tauto.
Qed.

Lemma foldl_Set_add_NoDup l s : NoDup s → NoDup (foldl Set_add s l).
Proof.
  revert s. induction l as [|x l IH]; intros s Hs; simpl; [done|].
  by apply IH, Set_add_NoDup.
Qed.

Lemma new_Set_elem_of l y : y ∈ new_Set l ↔ y ∈ l.
Proof. unfold new_Set. rewrite foldl_Set_add_elem_of, elem_of_nil. tauto. Qed.

Lemma new_Set_NoDup l : NoDup (new_Set l).
Proof. apply foldl_Set_add_NoDup, NoDup_nil_2. Qed.

Section MapOfDocs.
Context {V : Type} (key : V → string).

Let entries (l : list V) : list (string * V) := (λ v, (key v, v)) <$> l.

Lemma foldl_insert_lookup (l : list V) (m : gmap string V) k :
  foldl (λ m kv, <[kv.1 := kv.2]> m) m (entries l) !! k =
  match last (filter (λ v, key v = k) l) with
  | Some v => Some v
  | None => m !! k
  end.
Proof.
  revert m. induction l as [|x l IH]; intros m; simpl; [done|].
  rewrite IH. rewrite filter_cons. case_decide as Hk.
  - rewrite last_cons. destruct (last (filter _ l)); [done|].
    rewrite <- Hk. by rewrite lookup_insert_eq.
  - destruct (last (filter _ l)); [done|]. by rewrite lookup_insert_ne.
Qed.

Lemma new_Map_lookup (l : list V) k :
  new_Map (entries l) !! k = last (filter (λ v, key v = k) l).
Proof.
  unfold new_Map. rewrite foldl_insert_lookup, lookup_empty.
  by destruct (last _).
Qed.

Lemma new_Map_lookup_Some (l : list V) k v :
  new_Map (entries l) !! k = Some v → v ∈ l ∧ key v = k.
Proof.
  rewrite new_Map_lookup. intros Hl.
  assert (v ∈ filter (λ v, key v = k) l) as Hin.
  { apply last_Some in Hl as [l' ->]. set_solver. }
  by apply list_elem_of_filter in Hin as [? ?].
Qed.

Lemma Map_has_new_Map (l : list V) k :
  Map_has (new_Map (entries l)) k = true ↔ k ∈ key <$> l.
Proof.
  unfold Map_has. rewrite bool_decide_eq_true, new_Map_lookup.
  rewrite list_elem_of_fmap. split.
  - intros [v Hv]. apply last_Some in Hv as [l' Hl'].
    assert (v ∈ filter (λ v, key v = k) l) as Hin by (rewrite Hl'; set_solver).
    apply list_elem_of_filter in Hin as [? ?]. eauto.
  - intros (v & -> & Hin).
    assert (v ∈ filter (λ v', key v' = key v) l) as Hin'
      by (by apply list_elem_of_filter).
    destruct (filter _ l) as [|a f'] eqn:Hf using rev_ind.
    + by apply elem_of_nil in Hin'.
    + rewrite last_snoc. eauto.
Qed.
End MapOfDocs.

(** ** The client: one request, no exception *)

Ltac client_unfold :=
  unfold try_catch, send, console_error, guarded, logged, reported,
    mbind, M_bind, mret, M_ret; simpl.

Lemma getPersonalizedRecommendations_eq u wv lv md lim ex svc w :
  let rq := mkPersonalizedRequest u wv lv md lim ex in
  getPersonalizedRecommendations u wv lv md lim ex svc w =
  guarded (PostPersonalized rq) "Recommendation service error:"
    (on_personalized svc rq) w.
Proof.
  unfold getPersonalizedRecommendations. client_unfold.
  by destruct (on_personalized svc _).
Qed.

Lemma getSimilarVideos_eq videoId lim svc w :
  getSimilarVideos videoId lim svc w =
  guarded (GetSimilar videoId lim) "Similar videos service error:"
    (on_similar svc videoId lim) w.
Proof.
  unfold getSimilarVideos. client_unfold. by destruct (on_similar svc _ _).
Qed.

Lemma submitBatchEmbeddings_eq videos svc w :
  submitBatchEmbeddings videos svc w =
  guarded (PostBatch videos) "Embedding batch submission error:"
    (on_batch svc videos) w.
Proof.
  unfold submitBatchEmbeddings. client_unfold. by destruct (on_batch svc _).
Qed.

Lemma syncEmbeddings_eq videos svc w :
  syncEmbeddings videos svc w =
  guarded (PostSync videos) "Embedding sync error:" (on_sync svc videos) w.
Proof.
  unfold syncEmbeddings. client_unfold. by destruct (on_sync svc _).
Qed.

Lemma deleteEmbedding_eq videoId svc w :
  deleteEmbedding videoId svc w =
  guarded (DeleteEmbedding videoId) "Embedding deletion error:"
    (on_delete svc videoId) w.
Proof.
  unfold deleteEmbedding. client_unfold. by destruct (on_delete svc _).
Qed.

Lemma checkHealth_eq svc w :
  checkHealth svc w =
  match on_health svc with
  | Replied d => (Normal d, logged GetHealth w)
  | Rejected msg =>
      (Normal {| status := "unhealthy"; error := Some msg |},
       reported "Recommendation service health check failed:" msg (logged GetHealth w))
  end.
Proof. unfold checkHealth. client_unfold. by destruct (on_health svc). Qed.

Lemma guarded_normal {A} c label (t : Transport (option A)) w :
  (guarded c label t w).1 = Normal (handed_back t (λ _, None)).
Proof. by destruct t. Qed.

Lemma guarded_calls {A} c label (t : Transport (option A)) w :
  calls (guarded c label t w).2 = (calls w ++ [c])%list.
Proof. by destruct t. Qed.

(** C10. Each of the six operations of the external scoring client
    completes normally whatever the transport does, from any state of the
    world: when the transport replies the operation returns the body
    unchanged, and when it rejects the operation returns [null] ([None]),
    or, for the health check, the object
    [{ status: "unhealthy", error: message }]. *)
Theorem client_never_throws (svc : Service) (w : World) :
  (∀ u wv lv md lim ex,
     (getPersonalizedRecommendations u wv lv md lim ex svc w).1 =
     Normal (handed_back
               (on_personalized svc (mkPersonalizedRequest u wv lv md lim ex))
               (λ _, None)))
  ∧ (∀ videoId lim,
       (getSimilarVideos videoId lim svc w).1 =
       Normal (handed_back (on_similar svc videoId lim) (λ _, None)))
  ∧ (∀ videos,
       (submitBatchEmbeddings videos svc w).1 =
       Normal (handed_back (on_batch svc videos) (λ _, None)))
  ∧ (∀ videos,
       (syncEmbeddings videos svc w).1 =
       Normal (handed_back (on_sync svc videos) (λ _, None)))
  ∧ (∀ videoId,
       (deleteEmbedding videoId svc w).1 =
       Normal (handed_back (on_delete svc videoId) (λ _, None)))
  ∧ (checkHealth svc w).1 =
    Normal (handed_back (on_health svc)
              (λ msg, {| status := "unhealthy"; error := Some msg |})).
Proof.
  split_and!; intros.
  - rewrite getPersonalizedRecommendations_eq. apply guarded_normal.
  - rewrite getSimilarVideos_eq. apply guarded_normal.
  - rewrite submitBatchEmbeddings_eq. apply guarded_normal.
  - rewrite syncEmbeddings_eq. apply guarded_normal.
  - rewrite deleteEmbedding_eq. apply guarded_normal.
  - rewrite checkHealth_eq. by destruct (on_health svc).
Qed.

(** ** [getRecommendations]: the three paths *)

Lemma history_test db userId :
  bool_decide (length (watchedVideoIds db userId) = 0%nat
               ∧ length (likedVideoIds db userId) = 0%nat) = false
  ↔ has_history db userId.
Proof.
  unfold has_history. rewrite bool_decide_eq_false.
  destruct (watchedVideoIds db userId), (likedVideoIds db userId); simpl;
    intuition (try congruence; try lia).
Qed.

Lemma getRecommendations_tier1 db req svc w :
  watchedVideoIds db (req_user_id req) = [] →
  likedVideoIds db (req_user_id req) = [] →
  getRecommendations db req svc w =
  (Normal (mkHttpResponse 200 (mkApiResponse 200
     (PopularData (popular_pipeline db (limit_of req)) true
        "No user history available - showing popular videos")
     "Popular videos fetched as fallback")), w).
Proof. intros Hw Hl. unfold getRecommendations. by rewrite Hw, Hl. Qed.

Lemma getRecommendations_tier2 db req svc w :
  has_history db (req_user_id req) →
  lacks_ranked_list (on_personalized svc (request_of db req)) →
  getRecommendations db req svc w =
  (Normal (mkHttpResponse 200 (mkApiResponse 200
     (PopularData
        (popular_excluding_pipeline db (excludeVideoIds db (req_user_id req)) (limit_of req))
        true "Recommendation service unavailable - using popularity fallback")
     "Fallback recommendations fetched")),
   (guarded (PostPersonalized (request_of db req)) "Recommendation service error:"
      (on_personalized svc (request_of db req)) w).2).
Proof.
  intros Hh%history_test Hl. unfold getRecommendations. rewrite Hh.
  unfold mbind, M_bind. rewrite getPersonalizedRecommendations_eq.
  fold (request_of db req).
  destruct (on_personalized svc (request_of db req)) as [[p|]|msg]; simpl in *;
    [|done..].
  destruct p as [recs ? ?]; simpl in Hl. by subst recs.
Qed.

Lemma getRecommendations_success db req svc w p ranked :
  has_history db (req_user_id req) →
  on_personalized svc (request_of db req) = Replied (Some p) →
  recommendations p = Some ranked →
  getRecommendations db req svc w =
  (Normal (mkHttpResponse 200 (mkApiResponse 200
     (PersonalizedData (orderedResults db ranked)
        {| watchedCount := watched_count p; likedCount := liked_count p |} false)
     "Personalized recommendations fetched successfully")),
   logged (PostPersonalized (request_of db req)) w).
Proof.
  intros Hh%history_test Hr Hp. unfold getRecommendations. rewrite Hh.
  unfold mbind, M_bind. rewrite getPersonalizedRecommendations_eq.
  fold (request_of db req). rewrite Hr. simpl.
  destruct p as [recs ? ?]; simpl in Hp. by subst recs.
Qed.

(** ** Pipelines *)

Lemma filter_ext_elem_of {A} (P Q : A → Prop) `{∀ x, Decision (P x)}
  `{∀ x, Decision (Q x)} (l : list A) :
  (∀ x, x ∈ l → P x ↔ Q x) → filter P l = filter Q l.
Proof.
  induction l as [|a l IH]; intros Hext; [done|].
  rewrite !filter_cons.
  assert (filter P l = filter Q l) as -> by (apply IH; intros; apply Hext; by right).
  pose proof (Hext a (list_elem_of_here a l)).
  repeat case_decide; tauto.
Qed.

Lemma ranked_pipeline_spec db (R : relation Video) `{∀ a b, Decision (R a b)}
  `{!Transitive R, !Total R} (candidates : list Video) (limit : positive) :
  let out := lookup_owner db <$> limit_stage limit (sort_stage R candidates) in
  out = lookup_owner db <$> (doc <$> out)
  ∧ ranked_prefix R candidates limit (doc <$> out).
Proof.
  simpl. rewrite doc_lookup_owner. split; [done|].
  exists (sort_stage R candidates). split_and!.
  - apply sort_stage_perm.
  - by apply sort_stage_sorted.
  - done.
Qed.

Lemma ranked_prefix_elem_of R candidates limit out v :
  ranked_prefix R candidates limit out → v ∈ out → v ∈ candidates.
Proof.
  intros (sorted & Hperm & _ & ->) Hv. rewrite <- Hperm.
  by apply (subseteq_take (Pos.to_nat limit)).
Qed.

Lemma ranked_prefix_length R candidates limit out :
  ranked_prefix R candidates limit out → (length out ≤ Pos.to_nat limit)%nat.
Proof. intros (sorted & _ & _ & ->). rewrite length_take. lia. Qed.

Lemma ranked_prefix_NoDup R candidates limit out :
  ranked_prefix R candidates limit out →
  NoDup (vid <$> candidates) → NoDup (vid <$> out).
Proof.
  intros (sorted & Hperm & _ & ->) Hnd. rewrite <- Hperm in Hnd.
  rewrite fmap_take. eapply sublist_NoDup; [done | apply sublist_take].
Qed.

Lemma by_ids_pipeline_elem_of db ids d :
  d ∈ by_ids_pipeline db ids ↔
  ∃ v, v ∈ Videos db ∧ vid v ∈ ids ∧ d = lookup_owner db v.
Proof.
  unfold by_ids_pipeline. rewrite list_elem_of_fmap. split.
  - intros (v & -> & [? ?]%list_elem_of_filter). eauto.
  - intros (v & ? & ? & ->). exists v. split; [done|]. by apply list_elem_of_filter.
Qed.

Lemma by_ids_has db ids k :
  Map_has (new_Map ((λ d, (vid (doc d), d)) <$> by_ids_pipeline db ids)) k = true
  ↔ k ∈ ids ∧ k ∈ vid <$> Videos db.
Proof.
  etrans; [apply (Map_has_new_Map (λ d, vid (doc d)))|].
  rewrite !list_elem_of_fmap. split.
  - intros (d & -> & (v & ? & ? & ->)%by_ids_pipeline_elem_of). simpl. eauto.
  - intros [Hk (v & -> & Hv)]. exists (lookup_owner db v). split; [done|].
    apply by_ids_pipeline_elem_of. eauto.
Qed.

Lemma by_ids_get db ids k d :
  Map_get (new_Map ((λ d, (vid (doc d), d)) <$> by_ids_pipeline db ids)) k = Some d →
  ∃ v, v ∈ Videos db ∧ vid v = k ∧ d = lookup_owner db v.
Proof.
  unfold Map_get.
  intros [Hd Hk]%(new_Map_lookup_Some (λ d, vid (doc d))).
  apply by_ids_pipeline_elem_of in Hd as (v & ? & ? & ->). eauto.
Qed.

Lemma orderedResults_spec db ranked :
  Forall2 (rejoined db) (orderedResults db ranked)
    (filter (λ r, in_catalog db (video_id r)) ranked).
Proof.
  unfold orderedResults. cbv zeta.
  set (videoMap := new_Map _).
  assert (filter (λ r, Map_has videoMap (video_id r) = true) ranked
          = filter (λ r, in_catalog db (video_id r)) ranked) as Hf.
  { apply filter_ext_elem_of. intros r Hr. unfold videoMap.
    rewrite by_ids_has. unfold in_catalog.
    assert (video_id r ∈ video_id <$> ranked) by (apply list_elem_of_fmap; eauto).
    tauto. }
  rewrite Hf. apply Forall2_fmap_l, Forall_Forall2_diag, Forall_forall.
  intros r [Hin Hr]%list_elem_of_filter. unfold rejoined; simpl.
  split; [|done].
  assert (Map_has videoMap (video_id r) = true) as Hhas.
  { unfold videoMap. apply by_ids_has. split; [|done].
    apply list_elem_of_fmap; eauto. }
  unfold Map_has in Hhas. apply bool_decide_eq_true in Hhas as [d Hd].
  destruct (by_ids_get db (video_id <$> ranked) (video_id r) d) as (v & ? & ? & ->);
    [exact Hd|].
  exists v. unfold Map_get. fold videoMap. by rewrite Hd.
Qed.

(** ** Claims on [getRecommendations] *)

(** C1. When the user has history and the external service answers with
    a ranked list, the handler answers 200 with [fallback = false], and
    its [recommendations] are, entry for entry and in the same order, the
    ranked items whose [video_id] is the id of a catalog video: each
    entry carries that video's document and the item's [final_score] and
    [score_breakdown].  Nothing is added afterwards, so the answer is as
    long as the filtered list and no longer than the ranked list; one
    request was sent. *)
Theorem personalized_order_preserved db req svc p ranked :
  has_history db (req_user_id req) →
  on_personalized svc (request_of db req) = Replied (Some p) →
  recommendations p = Some ranked →
  ∃ out profile msg,
    run (getRecommendations db req) svc =
      (Normal (mkHttpResponse 200 (mkApiResponse 200 (PersonalizedData out profile false) msg)),
       logged (PostPersonalized (request_of db req)) quiet)
    ∧ Forall2 (rejoined db) out (filter (λ r, in_catalog db (video_id r)) ranked)
    ∧ length out = length (filter (λ r, in_catalog db (video_id r)) ranked)
    ∧ (length out ≤ length ranked)%nat.
Proof.
  intros Hh Hr Hp. unfold run.
  rewrite (getRecommendations_success db req svc quiet p ranked Hh Hr Hp).
  eexists _, _, _. split; [reflexivity|].
  pose proof (orderedResults_spec db ranked) as HF.
  split_and!; [done | by eapply Forall2_length |].
  erewrite Forall2_length by done. apply length_filter.
Qed.

Lemma personalized_order_preserved_witness :
  ∃ out profile msg,
    run (getRecommendations Scenario.catalog_b Scenario.as_U1)
        (Scenario.ranking [Scenario.r9; Scenario.r7]) =
      (Normal (mkHttpResponse 200 (mkApiResponse 200 (PersonalizedData out profile false) msg)),
       logged (PostPersonalized (request_of Scenario.catalog_b Scenario.as_U1)) quiet)
    ∧ Forall2 (rejoined Scenario.catalog_b) out
        (filter (λ r, in_catalog Scenario.catalog_b (video_id r)) [Scenario.r9; Scenario.r7])
    ∧ length out =
      length (filter (λ r, in_catalog Scenario.catalog_b (video_id r)) [Scenario.r9; Scenario.r7])
    ∧ (length out ≤ length [Scenario.r9; Scenario.r7])%nat.
Proof.
  apply (personalized_order_preserved Scenario.catalog_b Scenario.as_U1
           (Scenario.ranking [Scenario.r9; Scenario.r7])
           (mkPersonalizedPayload (Some [Scenario.r9; Scenario.r7]) 2 1)).
  - left. vm_compute. discriminate.
  - reflexivity.
  - reflexivity.
Defined.

(** The scenario of the specification: the service ranks [V9] then [V7],
    [V9] is gone from the catalog; the answer is the single entry for
    [V7] with score 0.8. *)
Example deleted_video_not_padded :
  (run (getRecommendations Scenario.catalog_b Scenario.as_U1)
       (Scenario.ranking [Scenario.r9; Scenario.r7])).1 =
  Normal (mkHttpResponse 200 (mkApiResponse 200
    (PersonalizedData
       [ {| sv_video := Some (lookup_owner Scenario.catalog_b Scenario.V7);
            score := 0.8; scoreBreakdown := [("content", 0.8%Q)] |} ]
       {| watchedCount := 2; likedCount := 1 |} false)
    "Personalized recommendations fetched successfully")).
Proof. vm_compute. reflexivity. Qed.

(** C5. For a user whose watch history and liked-video list are both
    empty, the handler sends nothing to the external service (the world
    is left as it was) and answers 200 with [fallback = true], the
    no-history reason, and the published videos sorted by
    (views desc, createdAt desc) and cut after [limit] entries, each
    decorated with its owner card. *)
Theorem no_history_popularity_fallback db req svc :
  watchedVideoIds db (req_user_id req) = [] →
  likedVideoIds db (req_user_id req) = [] →
  ∃ out,
    run (getRecommendations db req) svc =
      (Normal (mkHttpResponse 200 (mkApiResponse 200
         (PopularData out true "No user history available - showing popular videos")
         "Popular videos fetched as fallback")),
       quiet)
    ∧ out = lookup_owner db <$> (doc <$> out)
    ∧ ranked_prefix by_views_createdAt_desc
        (filter (λ v, isPublished v = true) (Videos db)) (limit_of req) (doc <$> out).
Proof.
  intros Hw Hl. exists (popular_pipeline db (limit_of req)). split.
  - unfold run. by apply getRecommendations_tier1.
  - apply ranked_pipeline_spec; apply _.
Qed.

Lemma no_history_popularity_fallback_witness :
  ∃ out,
    run (getRecommendations Scenario.catalog_a Scenario.as_U0) Scenario.unreachable =
      (Normal (mkHttpResponse 200 (mkApiResponse 200
         (PopularData out true "No user history available - showing popular videos")
         "Popular videos fetched as fallback")),
       quiet)
    ∧ out = lookup_owner Scenario.catalog_a <$> (doc <$> out)
    ∧ ranked_prefix by_views_createdAt_desc
        (filter (λ v, isPublished v = true) (Videos Scenario.catalog_a))
        (limit_of Scenario.as_U0) (doc <$> out).
Proof.
  apply (no_history_popularity_fallback Scenario.catalog_a Scenario.as_U0
           Scenario.unreachable); reflexivity.
Defined.

(** With [limit = 1] the user without history is shown [V4] alone. *)
Example no_history_top1 :
  run (getRecommendations Scenario.catalog_a Scenario.as_U0) Scenario.unreachable =
  (Normal (mkHttpResponse 200 (mkApiResponse 200
     (PopularData [lookup_owner Scenario.catalog_a Scenario.V4] true
        "No user history available - showing popular videos")
     "Popular videos fetched as fallback")),
   quiet).
Proof. vm_compute. reflexivity. Qed.

(** C2 as stated fails: a reply whose [recommendations] is the empty
    array is truthy for the handler's test, which therefore takes the
    success path and answers with no entries and [fallback = false]
    rather than with the popularity fallback. *)
Lemma empty_ranked_list_is_not_a_fallback :
  ¬ (∀ db req svc,
       has_history db (req_user_id req) →
       lacks_or_empty (on_personalized svc (request_of db req)) →
       ∃ out reason msg,
         (run (getRecommendations db req) svc).1 =
         Normal (mkHttpResponse 200 (mkApiResponse 200 (PopularData out true reason) msg))).
Proof.
  intros Hclaim.
  destruct (Hclaim Scenario.catalog_a Scenario.as_U1 (Scenario.ranking []))
    as (out & reason & msg & Hrun).
  - left. vm_compute. discriminate.
  - right. eexists. split; reflexivity.
  - vm_compute in Hrun. discriminate Hrun.
Qed.

(** What the handler does there. *)
Example empty_ranked_list_answer :
  (run (getRecommendations Scenario.catalog_a Scenario.as_U1) (Scenario.ranking [])).1 =
  Normal (mkHttpResponse 200 (mkApiResponse 200
    (PersonalizedData [] {| watchedCount := 2; likedCount := 1 |} false)
    "Personalized recommendations fetched successfully")).
Proof. vm_compute. reflexivity. Qed.

(** C2, amended. For a user with history, when the external call is
    rejected (failure or timeout), or its body is empty, or the body has
    no [recommendations] field, the handler completes normally with
    status 200, [fallback = true], the service-unavailable reason, and
    the published videos whose id is not in the exclusion set, sorted by
    (views desc, createdAt desc) and cut after [limit] entries; exactly
    one request was sent. *)
Theorem service_failure_popularity_fallback db req svc :
  has_history db (req_user_id req) →
  lacks_ranked_list (on_personalized svc (request_of db req)) →
  ∃ out,
    (run (getRecommendations db req) svc).1 =
      Normal (mkHttpResponse 200 (mkApiResponse 200
        (PopularData out true
           "Recommendation service unavailable - using popularity fallback")
        "Fallback recommendations fetched"))
    ∧ calls (run (getRecommendations db req) svc).2 = [PostPersonalized (request_of db req)]
    ∧ out = lookup_owner db <$> (doc <$> out)
    ∧ ranked_prefix by_views_createdAt_desc
        (filter (λ v, isPublished v = true ∧ vid v ∉ excludeVideoIds db (req_user_id req))
           (Videos db))
        (limit_of req) (doc <$> out).
Proof.
  intros Hh Hl.
  exists (popular_excluding_pipeline db (excludeVideoIds db (req_user_id req)) (limit_of req)).
  unfold run. rewrite (getRecommendations_tier2 db req svc quiet Hh Hl).
  split_and!; [done | simpl; by rewrite guarded_calls | ..];
    apply ranked_pipeline_spec; apply _.
Qed.

Lemma service_failure_popularity_fallback_witness :
  ∃ out,
    (run (getRecommendations Scenario.catalog_a Scenario.as_U1) Scenario.unreachable).1 =
      Normal (mkHttpResponse 200 (mkApiResponse 200
        (PopularData out true
           "Recommendation service unavailable - using popularity fallback")
        "Fallback recommendations fetched"))
    ∧ calls (run (getRecommendations Scenario.catalog_a Scenario.as_U1) Scenario.unreachable).2
      = [PostPersonalized (request_of Scenario.catalog_a Scenario.as_U1)]
    ∧ out = lookup_owner Scenario.catalog_a <$> (doc <$> out)
    ∧ ranked_prefix by_views_createdAt_desc
        (filter (λ v, isPublished v = true
                      ∧ vid v ∉ excludeVideoIds Scenario.catalog_a (req_user_id Scenario.as_U1))
           (Videos Scenario.catalog_a))
        (limit_of Scenario.as_U1) (doc <$> out).
Proof.
  apply (service_failure_popularity_fallback Scenario.catalog_a Scenario.as_U1
           Scenario.unreachable).
  - left. vm_compute. discriminate.
  - exact I.
Defined.

(** The scenario of the specification: [U1] watched [V1], [V2] and liked
    [V3], the service is unreachable, the catalog holds [V4] (100 views)
    and [V5] (50 views): the answer is [V4], [V5]. *)
Example unreachable_service_scenario :
  (run (getRecommendations Scenario.catalog_a Scenario.as_U1) Scenario.unreachable).1 =
  Normal (mkHttpResponse 200 (mkApiResponse 200
    (PopularData
       [lookup_owner Scenario.catalog_a Scenario.V4;
        lookup_owner Scenario.catalog_a Scenario.V5]
       true "Recommendation service unavailable - using popularity fallback")
    "Fallback recommendations fetched")).
Proof. vm_compute. reflexivity. Qed.

(** The three ways [getRecommendations] can go. *)
Lemma getRecommendations_cases db req svc :
  (watchedVideoIds db (req_user_id req) = [] ∧ likedVideoIds db (req_user_id req) = [])
  ∨ (has_history db (req_user_id req)
     ∧ lacks_ranked_list (on_personalized svc (request_of db req)))
  ∨ (has_history db (req_user_id req)
     ∧ ∃ p ranked, on_personalized svc (request_of db req) = Replied (Some p)
                   ∧ recommendations p = Some ranked).
Proof.
  destruct (watchedVideoIds db (req_user_id req)) as [|x wv] eqn:Hw;
    destruct (likedVideoIds db (req_user_id req)) as [|y lv] eqn:Hl;
    [by left | right..];
    (assert (has_history db (req_user_id req)) as Hh
       by (unfold has_history; rewrite Hw, Hl; first [by left | by right]));
    (destruct (on_personalized svc (request_of db req)) as [[p|]|msg] eqn:Hr;
       [destruct (recommendations p) as [ranked|] eqn:Hp;
          [right; split; [done|]; by exists p, ranked | left; split; [done|]; exact Hp]
       | left; split; [done|]; exact I
       | left; split; [done|]; exact I]).
Qed.

Lemma excludeVideoIds_spec db userId :
  NoDup (excludeVideoIds db userId)
  ∧ ∀ x, x ∈ excludeVideoIds db userId
         ↔ x ∈ watchedVideoIds db userId ∨ x ∈ likedVideoIds db userId.
Proof.
  unfold excludeVideoIds. split; [apply new_Set_NoDup|].
  intros x. by rewrite new_Set_elem_of, elem_of_app.
Qed.

Lemma popular_excluding_pipeline_elem_of db excluded limit d :
  d ∈ popular_excluding_pipeline db excluded limit →
  (vid (doc d) ∉ excluded) ∧ isPublished (doc d) = true ∧ doc d ∈ Videos db.
Proof.
  unfold popular_excluding_pipeline.
  intros Hd. apply list_elem_of_fmap in Hd as (v & -> & Hv).
  apply limit_stage_elem_of, sort_stage_elem_of in Hv.
  apply list_elem_of_filter in Hv as [[? ?] ?]. done.
Qed.

(** C6. Whenever [getRecommendations] answers on a fallback path (its
    data has the fallback shape), the flag [fallback] is set and no
    listed video has its id in the exclusion set; the exclusion set has
    no duplicates and holds exactly the ids the user watched or liked. *)
Theorem fallback_excludes_seen db req svc resp out fb reason :
  (run (getRecommendations db req) svc).1 = Normal resp →
  data (body resp) = PopularData out fb reason →
  fb = true
  ∧ (∀ d, d ∈ out → vid (doc d) ∉ excludeVideoIds db (req_user_id req))
  ∧ NoDup (excludeVideoIds db (req_user_id req))
  ∧ (∀ x, x ∈ excludeVideoIds db (req_user_id req)
          ↔ x ∈ watchedVideoIds db (req_user_id req)
            ∨ x ∈ likedVideoIds db (req_user_id req)).
Proof.
  intros Hrun Hdata.
  destruct (excludeVideoIds_spec db (req_user_id req)) as [Hnd Hex].
  unfold run in Hrun.
  destruct (getRecommendations_cases db req svc)
    as [[Hw Hl] | [[Hh Hlack] | (Hh & p & ranked & Hr & Hp)]].
  - rewrite (getRecommendations_tier1 db req svc quiet Hw Hl) in Hrun.
    simpl in Hrun. injection Hrun as <-. simpl in Hdata.
    injection Hdata as <- <- <-. split_and!; [done | | done..].
    intros d _ [Hin|Hin]%Hex; [rewrite Hw in Hin | rewrite Hl in Hin];
      by apply elem_of_nil in Hin.
  - rewrite (getRecommendations_tier2 db req svc quiet Hh Hlack) in Hrun.
    simpl in Hrun. injection Hrun as <-. simpl in Hdata.
    injection Hdata as <- <- <-. split_and!; [done | | done..].
    intros d Hd. by apply popular_excluding_pipeline_elem_of in Hd as [? _].
  - rewrite (getRecommendations_success db req svc quiet p ranked Hh Hr Hp) in Hrun.
    simpl in Hrun. injection Hrun as <-. simpl in Hdata. discriminate Hdata.
Qed.

Lemma fallback_excludes_seen_witness :
  true = true
  ∧ (∀ d, d ∈ [lookup_owner Scenario.catalog_b Scenario.V7] →
          vid (doc d) ∉ excludeVideoIds Scenario.catalog_b (req_user_id Scenario.as_U1))
  ∧ NoDup (excludeVideoIds Scenario.catalog_b (req_user_id Scenario.as_U1))
  ∧ (∀ x, x ∈ excludeVideoIds Scenario.catalog_b (req_user_id Scenario.as_U1)
          ↔ x ∈ watchedVideoIds Scenario.catalog_b (req_user_id Scenario.as_U1)
            ∨ x ∈ likedVideoIds Scenario.catalog_b (req_user_id Scenario.as_U1)).
Proof.
  eapply (fallback_excludes_seen Scenario.catalog_b Scenario.as_U1 Scenario.unreachable).
  - vm_compute. reflexivity.
  - reflexivity.
Defined.

Lemma rejoined_ids db out flt :
  Forall2 (rejoined db) out flt →
  (λ e, (λ v, vid (doc v)) <$> sv_video e) <$> out = (λ r, Some (video_id r)) <$> flt.
Proof.
  induction 1 as [|e r out flt [(v & _ & Hid & Hv) _] _ IH]; csimpl; [done|].
  rewrite IH, Hv. simpl. by rewrite Hid.
Qed.

Lemma ranked_prefix_ids_NoDup R candidates limit (out : list VideoDoc) :
  ranked_prefix R candidates limit (doc <$> out) →
  NoDup (vid <$> candidates) →
  NoDup ((λ v, Some (vid (doc v))) <$> out).
Proof.
  intros Hrp Hnd. pose proof (ranked_prefix_NoDup _ _ _ _ Hrp Hnd) as Hout.
  rewrite <- list_fmap_compose in Hout.
  replace ((λ v, Some (vid (doc v))) <$> out) with (Some <$> ((vid ∘ doc) <$> out))
    by (by rewrite <- list_fmap_compose).
  apply (NoDup_fmap_2 _). exact Hout.
Qed.

Lemma filter_ids_NoDup (P : Video → Prop) `{∀ v, Decision (P v)} (l : list Video) :
  NoDup (vid <$> l) → NoDup (vid <$> filter P l).
Proof.
  intros Hnd. eapply sublist_NoDup; [exact Hnd|].
  apply fmap_sublist, sublist_filter.
Qed.

(** C3. In every answer of [getRecommendations] no video is listed twice
    and at most [limit] entries are listed, given that the ids of the
    catalog are unique and that the external list, when there is one,
    itself has no duplicate id and at most [limit] items (the handler
    does not cut the list again after the re-join). *)
Theorem answer_without_duplicates_within_limit db req svc :
  NoDup (vid <$> Videos db) →
  respects_limit (on_personalized svc (request_of db req)) (limit_of req) →
  ∃ resp,
    (run (getRecommendations db req) svc).1 = Normal resp
    ∧ NoDup (answer_ids (data (body resp)))
    ∧ (length (answer_ids (data (body resp))) ≤ Pos.to_nat (limit_of req))%nat.
Proof.
  intros Hcat Hext. unfold run.
  destruct (getRecommendations_cases db req svc)
    as [[Hw Hl] | [[Hh Hlack] | (Hh & p & ranked & Hr & Hp)]].
  - rewrite (getRecommendations_tier1 db req svc quiet Hw Hl).
    eexists. split; [reflexivity|]. simpl.
    destruct (ranked_pipeline_spec db by_views_createdAt_desc
                (filter (λ v, isPublished v = true) (Videos db)) (limit_of req))
      as [_ Hrp].
    split.
    + eapply ranked_prefix_ids_NoDup; [exact Hrp|]. by apply filter_ids_NoDup.
    + rewrite length_fmap. apply ranked_prefix_length in Hrp.
      by rewrite length_fmap in Hrp.
  - rewrite (getRecommendations_tier2 db req svc quiet Hh Hlack).
    eexists. split; [reflexivity|]. simpl.
    destruct (ranked_pipeline_spec db by_views_createdAt_desc
                (filter (λ v, isPublished v = true
                              ∧ vid v ∉ excludeVideoIds db (req_user_id req)) (Videos db))
                (limit_of req))
      as [_ Hrp].
    split.
    + eapply ranked_prefix_ids_NoDup; [exact Hrp|]. by apply filter_ids_NoDup.
    + rewrite length_fmap. apply ranked_prefix_length in Hrp.
      by rewrite length_fmap in Hrp.
  - rewrite (getRecommendations_success db req svc quiet p ranked Hh Hr Hp).
    eexists. split; [reflexivity|]. simpl.
    destruct (Hext p ranked Hr Hp) as [Hnd Hlen].
    rewrite (rejoined_ids db _ _ (orderedResults_spec db ranked)).
    split.
    + replace ((λ r, Some (video_id r)) <$> filter (λ r, in_catalog db (video_id r)) ranked)
        with (Some <$> (video_id <$> filter (λ r, in_catalog db (video_id r)) ranked))
        by (by rewrite <- list_fmap_compose).
      apply (NoDup_fmap_2 _).
      eapply sublist_NoDup; [exact Hnd|]. apply fmap_sublist, sublist_filter.
    + rewrite length_fmap.
      etrans; [apply length_filter | exact Hlen].
Qed.

Lemma answer_without_duplicates_within_limit_witness :
  ∃ resp,
    (run (getRecommendations Scenario.catalog_b Scenario.as_U1)
         (Scenario.ranking [Scenario.r9; Scenario.r7])).1 = Normal resp
    ∧ NoDup (answer_ids (data (body resp)))
    ∧ (length (answer_ids (data (body resp))) ≤ Pos.to_nat (limit_of Scenario.as_U1))%nat.
Proof.
  apply (answer_without_duplicates_within_limit Scenario.catalog_b Scenario.as_U1
           (Scenario.ranking [Scenario.r9; Scenario.r7])).
  - compute_done.
  - intros p ranked Hr Hp. injection Hr as <-. injection Hp as <-.
    split; [compute_done | vm_compute; lia].
Defined.

(** The handler does not cut the list after the re-join: with limit 1
    and an external list of two catalog videos, two entries are
    answered. *)
Example no_truncation_after_rejoin :
  answer_ids (match (run (getRecommendations Scenario.catalog_b
                            (mkRecommendationsRequest "U1" (Some 1%positive)))
                         (Scenario.ranking [Scenario.r8; Scenario.r7])).1 with
              | Normal resp => data (body resp)
              | Abrupt _ => PopularData [] false ""
              end)
  = [Some "V8"; Some "V7"].
Proof. vm_compute. reflexivity. Qed.

(** C4 (the code diverges). The re-join looks the recommended ids up in
    the whole video collection, without the [isPublished] test of the
    fallback pipelines: with [V8] stored but unpublished and ranked first
    by the external service, the successful answer lists [V8]. *)
Example unpublished_video_is_served :
  (run (getRecommendations Scenario.catalog_b Scenario.as_U1)
       (Scenario.ranking [Scenario.r8; Scenario.r7])).1 =
  Normal (mkHttpResponse 200 (mkApiResponse 200
    (PersonalizedData
       [ {| sv_video := Some (lookup_owner Scenario.catalog_b Scenario.V8);
            score := 0.85; scoreBreakdown := [] |};
         {| sv_video := Some (lookup_owner Scenario.catalog_b Scenario.V7);
            score := 0.8; scoreBreakdown := [("content", 0.8%Q)] |} ]
       {| watchedCount := 2; likedCount := 1 |} false)
    "Personalized recommendations fetched successfully"))
  ∧ isPublished Scenario.V8 = false
  ∧ Scenario.V8 ∉ Video_find_published Scenario.catalog_b.
Proof. split_and!; [vm_compute; reflexivity | reflexivity | compute_done]. Qed.

(** ** Claims on [getSimilar] *)

Lemma Video_findById_None db id : Video_findById db id = None ↔ ¬ in_catalog db id.
Proof.
  unfold Video_findById, in_catalog. rewrite list_elem_of_fmap. split.
  - intros Hhd (v & -> & Hv).
    assert (v ∈ filter (λ v', vid v' = vid v) (Videos db)) as Hin
      by (by apply list_elem_of_filter).
    destruct (filter _ (Videos db)); [by apply elem_of_nil in Hin | discriminate].
  - intros Hno. destruct (filter _ (Videos db)) as [|v l] eqn:Hf; [done|].
    exfalso. apply Hno. exists v.
    assert (v ∈ filter (λ v', vid v' = id) (Videos db)) as Hin
      by (rewrite Hf; left).
    apply list_elem_of_filter in Hin as [? ?]. done.
Qed.

Lemma Video_findById_Some db id v :
  Video_findById db id = Some v → v ∈ Videos db ∧ vid v = id.
Proof.
  unfold Video_findById. intros Hhd.
  assert (v ∈ filter (λ v', vid v' = id) (Videos db)) as Hin.
  { destruct (filter _ (Videos db)); [discriminate|]. injection Hhd as ->. left. }
  apply list_elem_of_filter in Hin as [? ?]. done.
Qed.

Section GetSimilarProperties.
Variable isValidObjectId : string → bool.

Lemma getSimilar_invalid db req svc w :
  isValidObjectId (params_videoId req) = false →
  getSimilar isValidObjectId db req svc w = (Abrupt (ApiError 400 "Invalid video ID"), w).
Proof. intros Hv. unfold getSimilar. by rewrite Hv. Qed.

Lemma getSimilar_missing db req svc w :
  isValidObjectId (params_videoId req) = true →
  Video_findById db (params_videoId req) = None →
  getSimilar isValidObjectId db req svc w = (Abrupt (ApiError 404 "Video not found"), w).
Proof. intros Hv Hf. unfold getSimilar. by rewrite Hv, Hf. Qed.

Lemma getSimilar_fallback db req svc w video :
  isValidObjectId (params_videoId req) = true →
  Video_findById db (params_videoId req) = Some video →
  lacks_similar_list (on_similar svc (params_videoId req) (similar_limit_of req)) →
  getSimilar isValidObjectId db req svc w =
  (Normal (mkHttpResponse 200 (mkApiResponse 200
     (SimilarFallbackData (params_videoId req)
        (same_owner_pipeline db (params_videoId req) video (similar_limit_of req)) true)
     "Fallback similar videos fetched")),
   (guarded (GetSimilar (params_videoId req) (similar_limit_of req))
      "Similar videos service error:"
      (on_similar svc (params_videoId req) (similar_limit_of req)) w).2).
Proof.
  intros Hv Hf Hl. unfold getSimilar. rewrite Hv, Hf. simpl.
  unfold mbind, M_bind. rewrite getSimilarVideos_eq.
  fold (similar_limit_of req).
  destruct (on_similar svc (params_videoId req) (similar_limit_of req))
    as [[p|]|msg]; simpl in *; [|done..].
  by rewrite Hl.
Qed.

Lemma getSimilar_success db req svc w video p ranked :
  isValidObjectId (params_videoId req) = true →
  Video_findById db (params_videoId req) = Some video →
  on_similar svc (params_videoId req) (similar_limit_of req) = Replied (Some p) →
  similar_videos p = Some ranked →
  getSimilar isValidObjectId db req svc w =
  (Normal (mkHttpResponse 200 (mkApiResponse 200
     (SimilarScoredData (params_videoId req) (orderedSimilar db ranked) false)
     "Similar videos fetched successfully")),
   logged (GetSimilar (params_videoId req) (similar_limit_of req)) w).
Proof.
  intros Hv Hf Hr Hp. unfold getSimilar. rewrite Hv, Hf. simpl.
  unfold mbind, M_bind. rewrite getSimilarVideos_eq.
  fold (similar_limit_of req). rewrite Hr. simpl. by rewrite Hp.
Qed.

End GetSimilarProperties.

(** C7. For a well-formed id of an existing video, when the similarity
    call is rejected or its reply carries no list, [getSimilar] answers
    200 with [fallback = true] and, as [similarVideos], the published
    videos of the same owner other than the source video, sorted by
    views descending and cut after [limit] entries; when the owner has no
    other published video that list is empty, and the answer is still a
    normal 200 response. *)
Theorem similar_fallback_same_owner (isValidObjectId : string → bool) db req svc video :
  isValidObjectId (params_videoId req) = true →
  Video_findById db (params_videoId req) = Some video →
  lacks_similar_list (on_similar svc (params_videoId req) (similar_limit_of req)) →
  ∃ out,
    (run (getSimilar isValidObjectId db req) svc).1 =
      Normal (mkHttpResponse 200 (mkApiResponse 200
        (SimilarFallbackData (params_videoId req) out true)
        "Fallback similar videos fetched"))
    ∧ out = lookup_owner db <$> (doc <$> out)
    ∧ ranked_prefix by_views_desc
        (filter (λ v, isPublished v = true ∧ vid v ≠ params_videoId req
                      ∧ owner v = owner video) (Videos db))
        (similar_limit_of req) (doc <$> out)
    ∧ ((∀ v, v ∈ Videos db → isPublished v = true → owner v = owner video →
             vid v = params_videoId req) → out = []).
Proof.
  intros Hv Hf Hl.
  exists (same_owner_pipeline db (params_videoId req) video (similar_limit_of req)).
  unfold run. rewrite (getSimilar_fallback _ db req svc quiet video Hv Hf Hl).
  split; [done|].
  destruct (ranked_pipeline_spec db by_views_desc
              (filter (λ v, isPublished v = true ∧ vid v ≠ params_videoId req
                            ∧ owner v = owner video) (Videos db))
              (similar_limit_of req)) as [Hdec Hrp].
  split_and!; [exact Hdec | exact Hrp |].
  intros Hnone.
  assert (doc <$> same_owner_pipeline db (params_videoId req) video (similar_limit_of req) = [])
    as Hnil.
  { apply elem_of_nil_inv. intros v Hin.
    eapply ranked_prefix_elem_of in Hin; [|exact Hrp].
    apply list_elem_of_filter in Hin as [(Hp & Hne & Ho) Hin].
    apply Hne. by apply Hnone. }
  by apply fmap_nil_inv in Hnil.
Qed.

(** C8. [getSimilar] throws [ApiError 400] for a malformed id and
    [ApiError 404] for a well-formed id that no stored video has, in both
    cases without any request to the external service (the world is left
    as it was); for a well-formed id of a stored video it completes
    normally with status 200. *)
Theorem getSimilar_rejections (isValidObjectId : string → bool) db req svc :
  (isValidObjectId (params_videoId req) = false →
     run (getSimilar isValidObjectId db req) svc =
     (Abrupt (ApiError 400 "Invalid video ID"), quiet))
  ∧ (isValidObjectId (params_videoId req) = true →
     ¬ in_catalog db (params_videoId req) →
     run (getSimilar isValidObjectId db req) svc =
     (Abrupt (ApiError 404 "Video not found"), quiet))
  ∧ (isValidObjectId (params_videoId req) = true →
     in_catalog db (params_videoId req) →
     ∃ resp, (run (getSimilar isValidObjectId db req) svc).1 = Normal resp
             ∧ http_status resp = 200%nat).
Proof.
  split_and!.
  - intros Hv. by apply getSimilar_invalid.
  - intros Hv Hno. apply getSimilar_missing; [done|]. by apply Video_findById_None.
  - intros Hv Hin.
    destruct (Video_findById db (params_videoId req)) as [video|] eqn:Hf;
      [|by apply Video_findById_None in Hf].
    unfold run.
    destruct (on_similar svc (params_videoId req) (similar_limit_of req))
      as [[p|]|msg] eqn:Hr.
    + destruct (similar_videos p) as [ranked|] eqn:Hp.
      * rewrite (getSimilar_success _ db req svc quiet video p ranked Hv Hf Hr Hp).
        by eexists.
      * rewrite (getSimilar_fallback _ db req svc quiet video Hv Hf);
          [by eexists | by rewrite Hr].
    + rewrite (getSimilar_fallback _ db req svc quiet video Hv Hf);
        [by eexists | by rewrite Hr].
    + rewrite (getSimilar_fallback _ db req svc quiet video Hv Hf);
        [by eexists | by rewrite Hr].
Qed.

Lemma similar_fallback_same_owner_witness :
  ∃ out,
    (run (getSimilar Scenario.two_chars Scenario.catalog_c (Scenario.similar_to "V6"))
         Scenario.unreachable).1 =
      Normal (mkHttpResponse 200 (mkApiResponse 200
        (SimilarFallbackData "V6" out true) "Fallback similar videos fetched"))
    ∧ out = lookup_owner Scenario.catalog_c <$> (doc <$> out)
    ∧ ranked_prefix by_views_desc
        (filter (λ v, isPublished v = true ∧ vid v ≠ "V6" ∧ owner v = owner Scenario.V6)
           (Videos Scenario.catalog_c))
        (similar_limit_of (Scenario.similar_to "V6")) (doc <$> out)
    ∧ ((∀ v, v ∈ Videos Scenario.catalog_c → isPublished v = true →
             owner v = owner Scenario.V6 → vid v = "V6") → out = []).
Proof.
  apply (similar_fallback_same_owner Scenario.two_chars Scenario.catalog_c
           (Scenario.similar_to "V6") Scenario.unreachable Scenario.V6).
  - reflexivity.
  - reflexivity.
  - exact I.
Defined.

(** The scenario of the specification: the owner of [V6] has no other
    video and the service is unreachable; the answer is an empty list
    with [fallback = true]. *)
Example lone_video_similar :
  (run (getSimilar Scenario.two_chars Scenario.catalog_c (Scenario.similar_to "V6"))
       Scenario.unreachable).1 =
  Normal (mkHttpResponse 200 (mkApiResponse 200
    (SimilarFallbackData "V6" [] true) "Fallback similar videos fetched")).
Proof. vm_compute. reflexivity. Qed.

(** C7 as stated fails when "no usable list" includes an empty one: a
    reply whose [similar_videos] is the empty array is truthy for the
    handler's test, which takes the success path and answers no entry
    with [fallback = false], although the owner of [V4] has another
    published video that the fallback would list. *)
Lemma empty_similar_list_is_not_a_fallback :
  ¬ (∀ (isValidObjectId : string → bool) db req svc video,
       isValidObjectId (params_videoId req) = true →
       Video_findById db (params_videoId req) = Some video →
       lacks_similar_or_empty
         (on_similar svc (params_videoId req) (similar_limit_of req)) →
       ∃ out msg,
         (run (getSimilar isValidObjectId db req) svc).1 =
         Normal (mkHttpResponse 200 (mkApiResponse 200
           (SimilarFallbackData (params_videoId req) out true) msg))).
Proof.
  intros Hclaim.
  destruct (Hclaim Scenario.two_chars Scenario.catalog_c (Scenario.similar_to "V4")
              (Cases.similar_ranking []) Scenario.V4)
    as (out & msg & Hrun).
  - reflexivity.
  - reflexivity.
  - right. eexists. split; reflexivity.
  - vm_compute in Hrun. discriminate Hrun.
Qed.

(** What the handler does there, and what the fallback holds for the
    same video when the service is unreachable. *)
Example empty_similar_list_answer :
  (run (getSimilar Scenario.two_chars Scenario.catalog_c (Scenario.similar_to "V4"))
       (Cases.similar_ranking [])).1 =
  Normal (mkHttpResponse 200 (mkApiResponse 200
    (SimilarScoredData "V4" [] false) "Similar videos fetched successfully"))
  ∧ (run (getSimilar Scenario.two_chars Scenario.catalog_c (Scenario.similar_to "V4"))
         Scenario.unreachable).1 =
    Normal (mkHttpResponse 200 (mkApiResponse 200
      (SimilarFallbackData "V4" [lookup_owner Scenario.catalog_c Scenario.V5] true)
      "Fallback similar videos fetched")).
Proof. split; vm_compute; reflexivity. Qed.

Lemma getSimilar_rejections_witness :
  run (getSimilar Scenario.two_chars Scenario.catalog_b (Scenario.similar_to "not-an-id"))
      Scenario.unreachable =
    (Abrupt (ApiError 400 "Invalid video ID"), quiet)
  ∧ run (getSimilar Scenario.two_chars Scenario.catalog_b (Scenario.similar_to "V9"))
        Scenario.unreachable =
    (Abrupt (ApiError 404 "Video not found"), quiet)
  ∧ ∃ resp,
      (run (getSimilar Scenario.two_chars Scenario.catalog_b (Scenario.similar_to "V7"))
           Scenario.unreachable).1 = Normal resp
      ∧ http_status resp = 200%nat.
Proof.
  split_and!.
  - apply (getSimilar_rejections Scenario.two_chars Scenario.catalog_b
             (Scenario.similar_to "not-an-id") Scenario.unreachable).
    reflexivity.
  - apply (getSimilar_rejections Scenario.two_chars Scenario.catalog_b
             (Scenario.similar_to "V9") Scenario.unreachable).
    + reflexivity.
    + compute_done.
  - apply (getSimilar_rejections Scenario.two_chars Scenario.catalog_b
             (Scenario.similar_to "V7") Scenario.unreachable).
    + reflexivity.
    + compute_done.
Defined.

(** ** Claims on [syncVideoEmbeddings] *)

Lemma syncVideoEmbeddings_empty db svc w :
  Video_find_published db = [] →
  syncVideoEmbeddings db svc w =
  (Normal (mkHttpResponse 200 (mkApiResponse 200
     (NothingToSync 0 "No videos to sync") "No videos available for sync")), w).
Proof. intros He. unfold syncVideoEmbeddings. by rewrite He. Qed.

Lemma syncVideoEmbeddings_nonempty db svc w :
  Video_find_published db ≠ [] →
  syncVideoEmbeddings db svc w =
  (match handed_back (on_sync svc (videosForSync db)) (λ _, None) with
   | None => Abrupt (ApiError 503 "Recommendation service unavailable")
   | Some result =>
       Normal (mkHttpResponse 200 (mkApiResponse 200 (Synced result)
                 "Embeddings synced successfully"))
   end,
   (guarded (PostSync (videosForSync db)) "Embedding sync error:"
      (on_sync svc (videosForSync db)) w).2).
Proof.
  intros Hne. unfold syncVideoEmbeddings.
  rewrite bool_decide_eq_false_2
    by (by destruct (Video_find_published db)).
  unfold mbind, M_bind. rewrite syncEmbeddings_eq. fold (videosForSync db).
  by destruct (on_sync svc (videosForSync db)) as [[s|]|msg].
Qed.

(** C9. With no published video, [syncVideoEmbeddings] answers 200 with
    [{ synced: 0, ... }] and sends nothing.  With at least one, it sends
    the whole batch in one request to the sync endpoint and nothing
    else; if that request is rejected, or answered with an empty body,
    it throws [ApiError 503 "Recommendation service unavailable"], and
    if it is answered with a summary it answers 200 with that summary
    unchanged. *)
Theorem sync_outcomes db svc :
  (Video_find_published db = [] →
     run (syncVideoEmbeddings db) svc =
     (Normal (mkHttpResponse 200 (mkApiResponse 200
        (NothingToSync 0 "No videos to sync") "No videos available for sync")), quiet))
  ∧ (Video_find_published db ≠ [] →
     calls (run (syncVideoEmbeddings db) svc).2 = [PostSync (videosForSync db)]
     ∧ (∀ msg, on_sync svc (videosForSync db) = Rejected msg →
          (run (syncVideoEmbeddings db) svc).1 =
          Abrupt (ApiError 503 "Recommendation service unavailable"))
     ∧ (on_sync svc (videosForSync db) = Replied None →
          (run (syncVideoEmbeddings db) svc).1 =
          Abrupt (ApiError 503 "Recommendation service unavailable"))
     ∧ (∀ summary, on_sync svc (videosForSync db) = Replied (Some summary) →
          (run (syncVideoEmbeddings db) svc).1 =
          Normal (mkHttpResponse 200 (mkApiResponse 200 (Synced summary)
                    "Embeddings synced successfully")))).
Proof.
  split.
  - intros He. by apply syncVideoEmbeddings_empty.
  - intros Hne. unfold run. rewrite (syncVideoEmbeddings_nonempty db svc quiet Hne).
    split_and!.
    + simpl. by rewrite guarded_calls.
    + intros msg Hr. simpl. by rewrite Hr.
    + intros Hr. simpl. by rewrite Hr.
    + intros summary Hr. simpl. by rewrite Hr.
Qed.

Lemma sync_outcomes_witness :
  run (syncVideoEmbeddings Scenario.empty_catalog) Scenario.unreachable =
    (Normal (mkHttpResponse 200 (mkApiResponse 200
       (NothingToSync 0 "No videos to sync") "No videos available for sync")), quiet)
  ∧ (run (syncVideoEmbeddings Scenario.catalog_a) Scenario.unreachable).1 =
    Abrupt (ApiError 503 "Recommendation service unavailable")
  ∧ (run (syncVideoEmbeddings Scenario.catalog_a) (Scenario.answering None None)).1 =
    Normal (mkHttpResponse 200 (mkApiResponse 200 (Synced (mkSyncSummary 2 0 []))
              "Embeddings synced successfully")).
Proof.
  split_and!.
  - apply (sync_outcomes Scenario.empty_catalog Scenario.unreachable). reflexivity.
  - refine (proj1 (proj2 (proj2 (sync_outcomes Scenario.catalog_a Scenario.unreachable) _))
              Scenario.refused _); [discriminate | reflexivity].
  - refine (proj2 (proj2 (proj2 (proj2 (sync_outcomes Scenario.catalog_a
                                          (Scenario.answering None None)) _)))
              (mkSyncSummary 2 0 []) _); [discriminate | reflexivity].
Defined.

(** * Further properties *)

(** ** The success path of [getSimilar] *)

Lemma orderedSimilar_spec db ranked :
  Forall2 (rejoined_similar db) (orderedSimilar db ranked)
    (filter (λ s, in_catalog db (sim_video_id s)) ranked).
Proof.
  unfold orderedSimilar. cbv zeta.
  set (videoMap := new_Map _).
  assert (filter (λ s, Map_has videoMap (sim_video_id s) = true) ranked
          = filter (λ s, in_catalog db (sim_video_id s)) ranked) as Hf.
  { apply filter_ext_elem_of. intros s Hs. unfold videoMap.
    rewrite by_ids_has. unfold in_catalog.
    assert (sim_video_id s ∈ sim_video_id <$> ranked) by (apply list_elem_of_fmap; eauto).
    tauto. }
  rewrite Hf. apply Forall2_fmap_l, Forall_Forall2_diag, Forall_forall.
  intros s [Hin Hs]%list_elem_of_filter. unfold rejoined_similar; simpl.
  split; [|done].
  assert (Map_has videoMap (sim_video_id s) = true) as Hhas.
  { unfold videoMap. apply by_ids_has. split; [|done].
    apply list_elem_of_fmap; eauto. }
  unfold Map_has in Hhas. apply bool_decide_eq_true in Hhas as [d Hd].
  destruct (by_ids_get db (sim_video_id <$> ranked) (sim_video_id s) d)
    as (v & ? & ? & ->); [exact Hd|].
  exists v. unfold Map_get. fold videoMap. by rewrite Hd.
Qed.

(** X1. For a well-formed id of a stored video, when the similarity
    service answers with a list, [getSimilar] sends that one request and
    answers 200 with [fallback = false], the source id, and entry for
    entry and in order the ranked items whose id is stored, each with
    its document and its similarity score. *)
Theorem similar_order_preserved (isValidObjectId : string → bool) db req svc video p ranked :
  isValidObjectId (params_videoId req) = true →
  Video_findById db (params_videoId req) = Some video →
  on_similar svc (params_videoId req) (similar_limit_of req) = Replied (Some p) →
  similar_videos p = Some ranked →
  ∃ out,
    run (getSimilar isValidObjectId db req) svc =
      (Normal (mkHttpResponse 200 (mkApiResponse 200
         (SimilarScoredData (params_videoId req) out false)
         "Similar videos fetched successfully")),
       logged (GetSimilar (params_videoId req) (similar_limit_of req)) quiet)
    ∧ Forall2 (rejoined_similar db) out
        (filter (λ s, in_catalog db (sim_video_id s)) ranked)
    ∧ (length out ≤ length ranked)%nat.
Proof.
  intros Hv Hf Hr Hp. exists (orderedSimilar db ranked). unfold run.
  rewrite (getSimilar_success _ db req svc quiet video p ranked Hv Hf Hr Hp).
  pose proof (orderedSimilar_spec db ranked) as HF.
  split_and!; [done | done |].
  erewrite Forall2_length by done. apply length_filter.
Qed.

Lemma similar_order_preserved_witness :
  ∃ out,
    run (getSimilar Scenario.two_chars Scenario.catalog_c (Scenario.similar_to "V6"))
        (Cases.similar_ranking [Cases.s9; Cases.s5; Cases.s4]) =
      (Normal (mkHttpResponse 200 (mkApiResponse 200
         (SimilarScoredData "V6" out false) "Similar videos fetched successfully")),
       logged (GetSimilar "V6" 10%positive) quiet)
    ∧ Forall2 (rejoined_similar Scenario.catalog_c) out
        (filter (λ s, in_catalog Scenario.catalog_c (sim_video_id s))
           [Cases.s9; Cases.s5; Cases.s4])
    ∧ (length out ≤ length [Cases.s9; Cases.s5; Cases.s4])%nat.
Proof.
  apply (similar_order_preserved Scenario.two_chars Scenario.catalog_c
           (Scenario.similar_to "V6")
           (Cases.similar_ranking [Cases.s9; Cases.s5; Cases.s4]) Scenario.V6
           (mkSimilarPayload (Some [Cases.s9; Cases.s5; Cases.s4])));
    reflexivity.
Defined.

(** X2. For a well-formed id of a stored video [getSimilar] sends exactly
    one request, whatever the service does with it: the similarity
    request for that id with the limit of the query, 10 by default. *)
Theorem getSimilar_one_request (isValidObjectId : string → bool) db req svc :
  isValidObjectId (params_videoId req) = true →
  in_catalog db (params_videoId req) →
  calls (run (getSimilar isValidObjectId db req) svc).2 =
  [GetSimilar (params_videoId req) (default 10%positive (similar_query_limit req))].
Proof.
  intros Hv Hin.
  destruct (Video_findById db (params_videoId req)) as [video|] eqn:Hf;
    [|by apply Video_findById_None in Hf].
  unfold run.
  destruct (on_similar svc (params_videoId req) (similar_limit_of req))
    as [[p|]|msg] eqn:Hr.
  - destruct (similar_videos p) as [ranked|] eqn:Hp.
    + by rewrite (getSimilar_success _ db req svc quiet video p ranked Hv Hf Hr Hp).
    + rewrite (getSimilar_fallback _ db req svc quiet video Hv Hf) by (by rewrite Hr).
      simpl. by rewrite guarded_calls.
  - rewrite (getSimilar_fallback _ db req svc quiet video Hv Hf) by (by rewrite Hr).
    simpl. by rewrite guarded_calls.
  - rewrite (getSimilar_fallback _ db req svc quiet video Hv Hf) by (by rewrite Hr).
    simpl. by rewrite guarded_calls.
Qed.

Lemma getSimilar_one_request_witness :
  calls (run (getSimilar Scenario.two_chars Scenario.catalog_c (Scenario.similar_to "V6"))
             Scenario.unreachable).2 =
  [GetSimilar "V6" 10%positive].
Proof.
  apply (getSimilar_one_request Scenario.two_chars Scenario.catalog_c
           (Scenario.similar_to "V6") Scenario.unreachable).
  - reflexivity.
  - compute_done.
Defined.

(** ** [getRecommendations] as a whole *)

(** X4. [getRecommendations] sends nothing to the external service
    when the user has neither watched nor liked anything, and otherwise
    exactly one request, the personalized one, whatever the service
    does with it. *)
Theorem getRecommendations_request_count db req svc :
  calls (run (getRecommendations db req) svc).2 =
  match watchedVideoIds db (req_user_id req), likedVideoIds db (req_user_id req) with
  | [], [] => []
  | _, _ => [PostPersonalized (request_of db req)]
  end.
Proof.
  unfold run.
  destruct (getRecommendations_cases db req svc)
    as [[Hw Hl] | [[Hh Hlack] | (Hh & p & ranked & Hr & Hp)]].
  - rewrite (getRecommendations_tier1 db req svc quiet Hw Hl). by rewrite Hw, Hl.
  - rewrite (getRecommendations_tier2 db req svc quiet Hh Hlack).
    simpl. rewrite guarded_calls. simpl.
    destruct Hh as [Hh|Hh];
      destruct (watchedVideoIds db (req_user_id req)),
               (likedVideoIds db (req_user_id req)); done.
  - rewrite (getRecommendations_success db req svc quiet p ranked Hh Hr Hp). simpl.
    destruct Hh as [Hh|Hh];
      destruct (watchedVideoIds db (req_user_id req)),
               (likedVideoIds db (req_user_id req)); done.
Qed.

(** ** The request sent to the external service *)

Lemma foldl_insert_value_lookup {V W} (key : V → string) (val : V → W)
  (l : list V) (m : gmap string W) k :
  foldl (λ m v, <[key v := val v]> m) m l !! k =
  match last (filter (λ v, key v = k) l) with
  | Some v => Some (val v)
  | None => m !! k
  end.
Proof.
  revert m. induction l as [|x l IH]; intros m; simpl; [done|].
  rewrite IH, filter_cons. case_decide as Hk.
  - rewrite last_cons. destruct (last (filter _ l)); [done|].
    rewrite <- Hk. by rewrite lookup_insert_eq.
  - destruct (last (filter _ l)); [done|]. by rewrite lookup_insert_ne.
Qed.

Lemma videoMetadata_lookup db k :
  videoMetadata db !! k =
  metadata_of <$> last (filter (λ v, vid v = k) (Video_find_published db)).
Proof.
  unfold videoMetadata.
  rewrite (foldl_insert_value_lookup vid metadata_of), lookup_empty.
  by destruct (last _).
Qed.

Lemma last_filter_unique (P : Video → Prop) `{∀ v, Decision (P v)} (l : list Video) v :
  NoDup (vid <$> l) → v ∈ l → P v → (∀ v', v' ∈ l → P v' → vid v' = vid v) →
  last (filter P l) = Some v.
Proof.
  intros Hnd Hin HP Hall.
  destruct (last (filter P l)) as [a|] eqn:Hl.
  2:{ apply last_None in Hl.
      assert (v ∈ filter P l) as Hf by (by apply list_elem_of_filter).
      rewrite Hl in Hf. by apply elem_of_nil in Hf. }
  f_equal. apply last_Some_elem_of, list_elem_of_filter in Hl as [HPa Hina].
  assert (vid a = vid v) as Heq by (by apply Hall).
  apply list_elem_of_lookup in Hina as [i Hi].
  apply list_elem_of_lookup in Hin as [j Hj].
  assert (i = j) as ->.
  { eapply NoDup_lookup; [exact Hnd| |].
    - rewrite list_lookup_fmap, Hi. reflexivity.
    - rewrite list_lookup_fmap, Hj. simpl. by rewrite Heq. }
  congruence.
Qed.

(** X5. The [video_metadata] object of the personalized request has an
    entry for an id exactly when a published video has that id, and each
    entry holds the views and creation time of a published video with
    that id; when the stored ids are unique, the entry of a published
    video is its own views and creation time. *)
Theorem videoMetadata_covers_published db :
  (∀ k, is_Some (videoMetadata db !! k) ↔ k ∈ vid <$> Video_find_published db)
  ∧ (∀ k md, videoMetadata db !! k = Some md →
       ∃ v, v ∈ Videos db ∧ isPublished v = true ∧ vid v = k ∧ md = metadata_of v)
  ∧ (NoDup (vid <$> Videos db) →
     ∀ v, v ∈ Videos db → isPublished v = true →
       videoMetadata db !! vid v
       = Some {| md_views := views v; md_created_at := createdAt v |}).
Proof.
  split_and!.
  - intros k. rewrite videoMetadata_lookup, list_elem_of_fmap. split.
    + intros [md Hmd]. apply fmap_Some in Hmd as (v & Hl & _).
      apply last_Some in Hl as [l' Hl'].
      assert (v ∈ filter (λ v, vid v = k) (Video_find_published db)) as Hin
        by (rewrite Hl'; set_solver).
      apply list_elem_of_filter in Hin as [? ?]. eauto.
    + intros (v & -> & Hin).
      assert (v ∈ filter (λ v', vid v' = vid v) (Video_find_published db)) as Hin'
        by (by apply list_elem_of_filter).
      destruct (filter _ (Video_find_published db)) as [|a f'] using rev_ind;
        [by apply elem_of_nil in Hin'|].
      rewrite last_snoc. by eexists.
  - intros k md. rewrite videoMetadata_lookup. intros (v & Hl & ->)%fmap_Some.
    apply last_Some in Hl as [l' Hl'].
    assert (v ∈ filter (λ v, vid v = k) (Video_find_published db)) as Hin
      by (rewrite Hl'; set_solver).
    apply list_elem_of_filter in Hin as [Hk Hin].
    apply list_elem_of_filter in Hin as [? ?]. by exists v.
  - intros Hnd v Hin Hp. rewrite videoMetadata_lookup.
    rewrite (last_filter_unique _ (Video_find_published db) v); [done| | |done|done].
    + by apply filter_ids_NoDup.
    + by apply list_elem_of_filter.
Qed.

Lemma videoMetadata_covers_published_witness :
  videoMetadata Scenario.catalog_b !! "V7" = Some {| md_views := 70; md_created_at := 7 |}
  ∧ ¬ is_Some (videoMetadata Scenario.catalog_b !! "V8").
Proof.
  split.
  - refine (proj2 (proj2 (videoMetadata_covers_published Scenario.catalog_b))
              _ Scenario.V7 _ _); [compute_done | compute_done | reflexivity].
  - rewrite (proj1 (videoMetadata_covers_published Scenario.catalog_b) "V8").
    compute_done.
Defined.

(** ** The popularity fallbacks list the top of the ranking *)

Lemma ranked_prefix_top R candidates limit out x y :
  ranked_prefix R candidates limit out →
  x ∈ out → y ∈ candidates → y ∉ out → R x y.
Proof.
  intros (sorted & Hperm & Hsorted & ->) Hx Hy Hny.
  rewrite <- Hperm in Hy.
  rewrite <- (take_drop (Pos.to_nat limit) sorted) in Hy, Hsorted.
  apply elem_of_app in Hy as [Hy|Hy]; [done|].
  by eapply StronglySorted_app_1_elem_of.
Qed.

Lemma ranked_prefix_length_min R candidates limit out :
  ranked_prefix R candidates limit out →
  length out = (Pos.to_nat limit `min` length candidates)%nat.
Proof. intros (sorted & Hperm & _ & ->). by rewrite length_take, Hperm. Qed.

Lemma fallback_candidates_no_history db userId :
  watchedVideoIds db userId = [] → likedVideoIds db userId = [] →
  fallback_candidates db userId = filter (λ v, isPublished v = true) (Videos db).
Proof.
  intros Hw Hl. unfold fallback_candidates, excludeVideoIds. rewrite Hw, Hl.
  apply filter_ext_elem_of. intros v _. cbn. rewrite elem_of_nil. tauto.
Qed.

(** X6. A fallback answer of [getRecommendations] is the top of the
    popularity ranking: it has [limit] entries, or every candidate when
    there are fewer (a candidate is a published video outside the
    exclusion set), and every candidate left out ranks no better, by
    (views desc, createdAt desc), than each listed video. *)
Theorem fallback_lists_the_top db req svc resp out fb reason :
  (run (getRecommendations db req) svc).1 = Normal resp →
  data (body resp) = PopularData out fb reason →
  length out
  = (Pos.to_nat (limit_of req) `min` length (fallback_candidates db (req_user_id req)))%nat
  ∧ (∀ d, d ∈ out → doc d ∈ fallback_candidates db (req_user_id req))
  ∧ (∀ d v, d ∈ out → v ∈ fallback_candidates db (req_user_id req) →
            v ∉ doc <$> out → by_views_createdAt_desc (doc d) v).
Proof.
  intros Hrun Hdata. unfold run in Hrun.
  assert (ranked_prefix by_views_createdAt_desc
            (fallback_candidates db (req_user_id req)) (limit_of req) (doc <$> out))
    as Hrp.
  { destruct (getRecommendations_cases db req svc)
      as [[Hw Hl] | [[Hh Hlack] | (Hh & p & ranked & Hr & Hp)]].
    - rewrite (getRecommendations_tier1 db req svc quiet Hw Hl) in Hrun.
      simpl in Hrun. injection Hrun as <-. simpl in Hdata.
      injection Hdata as <- <- <-.
      rewrite (fallback_candidates_no_history db _ Hw Hl).
      apply ranked_pipeline_spec; apply _.
    - rewrite (getRecommendations_tier2 db req svc quiet Hh Hlack) in Hrun.
      simpl in Hrun. injection Hrun as <-. simpl in Hdata.
      injection Hdata as <- <- <-.
      apply ranked_pipeline_spec; apply _.
    - rewrite (getRecommendations_success db req svc quiet p ranked Hh Hr Hp) in Hrun.
      simpl in Hrun. injection Hrun as <-. simpl in Hdata. discriminate Hdata. }
  split_and!.
  - rewrite <- (ranked_prefix_length_min _ _ _ _ Hrp). by rewrite length_fmap.
  - intros d Hd. eapply ranked_prefix_elem_of; [exact Hrp|].
    apply list_elem_of_fmap. eauto.
  - intros d v Hd Hv Hnv. eapply ranked_prefix_top; [exact Hrp| |done|done].
    apply list_elem_of_fmap. eauto.
Qed.

Lemma fallback_lists_the_top_witness :
  length [lookup_owner Scenario.catalog_a Scenario.V4]
  = (Pos.to_nat (limit_of Scenario.as_U0)
     `min` length (fallback_candidates Scenario.catalog_a (req_user_id Scenario.as_U0)))%nat
  ∧ (∀ d, d ∈ [lookup_owner Scenario.catalog_a Scenario.V4] →
          doc d ∈ fallback_candidates Scenario.catalog_a (req_user_id Scenario.as_U0))
  ∧ (∀ d v, d ∈ [lookup_owner Scenario.catalog_a Scenario.V4] →
            v ∈ fallback_candidates Scenario.catalog_a (req_user_id Scenario.as_U0) →
            v ∉ doc <$> [lookup_owner Scenario.catalog_a Scenario.V4] →
            by_views_createdAt_desc (doc d) v).
Proof.
  eapply (fallback_lists_the_top Scenario.catalog_a Scenario.as_U0 Scenario.unreachable).
  - vm_compute. reflexivity.
  - reflexivity.
Defined.

(** X7. The fallback of [getSimilar] is the top of the owner's other
    published videos by views: it has [limit] entries, or all of them
    when there are fewer, never lists the source video or a video of
    another owner, and every candidate left out has no more views than
    each listed video. *)
Theorem similar_fallback_lists_the_top (isValidObjectId : string → bool)
  db req svc video :
  isValidObjectId (params_videoId req) = true →
  Video_findById db (params_videoId req) = Some video →
  lacks_similar_list (on_similar svc (params_videoId req) (similar_limit_of req)) →
  ∃ out msg,
    (run (getSimilar isValidObjectId db req) svc).1 =
      Normal (mkHttpResponse 200 (mkApiResponse 200
        (SimilarFallbackData (params_videoId req) out true) msg))
    ∧ length out
      = (Pos.to_nat (similar_limit_of req)
         `min` length (same_owner_candidates db (params_videoId req) video))%nat
    ∧ (∀ d, d ∈ out →
         vid (doc d) ≠ params_videoId req ∧ owner (doc d) = owner video
         ∧ isPublished (doc d) = true ∧ doc d ∈ Videos db)
    ∧ (∀ d v, d ∈ out → v ∈ same_owner_candidates db (params_videoId req) video →
              v ∉ doc <$> out → views v ≤ views (doc d)).
Proof.
  intros Hv Hf Hl.
  exists (same_owner_pipeline db (params_videoId req) video (similar_limit_of req)).
  eexists. unfold run.
  rewrite (getSimilar_fallback _ db req svc quiet video Hv Hf Hl).
  split; [reflexivity|].
  destruct (ranked_pipeline_spec db by_views_desc
              (same_owner_candidates db (params_videoId req) video)
              (similar_limit_of req)) as [_ Hrp].
  fold (same_owner_pipeline db (params_videoId req) video (similar_limit_of req)) in Hrp.
  split_and!.
  - rewrite <- (ranked_prefix_length_min _ _ _ _ Hrp). by rewrite length_fmap.
  - intros d Hd.
    assert (doc d ∈ same_owner_candidates db (params_videoId req) video) as Hc.
    { eapply ranked_prefix_elem_of; [exact Hrp|]. apply list_elem_of_fmap. eauto. }
    apply list_elem_of_filter in Hc as [(? & ? & ?) ?]. done.
  - intros d v Hd Hc Hnv.
    apply (ranked_prefix_top by_views_desc _ _ _ (doc d) v Hrp); [|done|done].
    apply list_elem_of_fmap. eauto.
Qed.

Lemma similar_fallback_lists_the_top_witness :
  ∃ out msg,
    (run (getSimilar Scenario.two_chars Scenario.catalog_c (Scenario.similar_to "V4"))
         Scenario.unreachable).1 =
      Normal (mkHttpResponse 200 (mkApiResponse 200 (SimilarFallbackData "V4" out true) msg))
    ∧ length out
      = (Pos.to_nat (similar_limit_of (Scenario.similar_to "V4"))
         `min` length (same_owner_candidates Scenario.catalog_c "V4" Scenario.V4))%nat
    ∧ (∀ d, d ∈ out →
         vid (doc d) ≠ "V4" ∧ owner (doc d) = owner Scenario.V4
         ∧ isPublished (doc d) = true ∧ doc d ∈ Videos Scenario.catalog_c)
    ∧ (∀ d v, d ∈ out → v ∈ same_owner_candidates Scenario.catalog_c "V4" Scenario.V4 →
              v ∉ doc <$> out → views v ≤ views (doc d)).
Proof.
  apply (similar_fallback_lists_the_top Scenario.two_chars Scenario.catalog_c
           (Scenario.similar_to "V4") Scenario.unreachable Scenario.V4).
  - reflexivity.
  - reflexivity.
  - exact I.
Defined.

(** ** What the client leaves in the world *)

Lemma guarded_world {A} c label (t : Transport (option A)) w :
  (guarded c label t w).2 = after_request c label t w.
Proof. destruct t; unfold after_request; simpl; by rewrite ?app_nil_r. Qed.

(** X8. Each operation of the client sends exactly one request, the one
    of its endpoint with the arguments it was given, and writes to the
    console exactly when that request is rejected: one line, with the
    label of the operation and the message of the error. *)
Theorem client_one_request_each (svc : Service) (w : World) :
  (∀ u wv lv md lim ex,
     let rq := mkPersonalizedRequest u wv lv md lim ex in
     (getPersonalizedRecommendations u wv lv md lim ex svc w).2 =
     after_request (PostPersonalized rq) "Recommendation service error:"
       (on_personalized svc rq) w)
  ∧ (∀ videoId lim,
       (getSimilarVideos videoId lim svc w).2 =
       after_request (GetSimilar videoId lim) "Similar videos service error:"
         (on_similar svc videoId lim) w)
  ∧ (∀ videos,
       (submitBatchEmbeddings videos svc w).2 =
       after_request (PostBatch videos) "Embedding batch submission error:"
         (on_batch svc videos) w)
  ∧ (∀ videos,
       (syncEmbeddings videos svc w).2 =
       after_request (PostSync videos) "Embedding sync error:" (on_sync svc videos) w)
  ∧ (∀ videoId,
       (deleteEmbedding videoId svc w).2 =
       after_request (DeleteEmbedding videoId) "Embedding deletion error:"
         (on_delete svc videoId) w)
  ∧ (checkHealth svc w).2 =
    after_request GetHealth "Recommendation service health check failed:"
      (on_health svc) w.
Proof.
  split_and!; intros.
  - rewrite getPersonalizedRecommendations_eq. apply guarded_world.
  - rewrite getSimilarVideos_eq. apply guarded_world.
  - rewrite submitBatchEmbeddings_eq. apply guarded_world.
  - rewrite syncEmbeddings_eq. apply guarded_world.
  - rewrite deleteEmbedding_eq. apply guarded_world.
  - rewrite checkHealth_eq.
    destruct (on_health svc); unfold after_request; simpl; by rewrite ?app_nil_r.
Qed.

(** ** The re-join, item by item *)

Lemma filter_fmap_lookup_owner db (P : Video → Prop) `{∀ v, Decision (P v)}
  (l : list Video) :
  filter (λ d, P (doc d)) (lookup_owner db <$> l) = lookup_owner db <$> filter P l.
Proof.
  induction l as [|v l IH]; [done|]. csimpl.
  rewrite !filter_cons. simpl. rewrite IH. by case_decide.
Qed.

Lemma last_fmap {A B} (f : A → B) (l : list A) : last (f <$> l) = f <$> last l.
Proof.
  induction l as [|a l IH] using rev_ind; [done|].
  rewrite fmap_app. simpl. by rewrite !last_snoc.
Qed.

Lemma by_ids_Map_get db ids k :
  k ∈ ids →
  Map_get (new_Map ((λ d, (vid (doc d), d)) <$> by_ids_pipeline db ids)) k
  = lookup_owner db <$> last (filter (λ v, vid v = k) (Videos db)).
Proof.
  intros Hk. unfold Map_get.
  rewrite (new_Map_lookup (λ d, vid (doc d))). unfold by_ids_pipeline.
  pose proof (filter_fmap_lookup_owner db (λ v, vid v = k)
                (filter (λ v, vid v ∈ ids) (Videos db))) as Hfm.
  cbv beta in Hfm. rewrite Hfm, last_fmap.
  do 2 f_equal. rewrite list_filter_filter.
  apply filter_ext_elem_of. intros v _. split; [tauto|]. intros Hv.
  split; [done|]. by rewrite Hv.
Qed.

Lemma orderedResults_itemwise db ranked :
  orderedResults db ranked = omap (rejoin_one db) ranked.
Proof.
  unfold orderedResults. cbv zeta.
  set (ids := video_id <$> ranked).
  assert (∀ l : list ScoredRecommendation,
            (∀ r, r ∈ l → video_id r ∈ ids) →
            (λ r, {| sv_video :=
                       Map_get (new_Map ((λ d, (vid (doc d), d)) <$> by_ids_pipeline db ids))
                         (video_id r);
                     score := final_score r;
                     scoreBreakdown := score_breakdown r |})
              <$> filter (λ r, Map_has (new_Map ((λ d, (vid (doc d), d))
                                          <$> by_ids_pipeline db ids)) (video_id r) = true) l
            = omap (rejoin_one db) l) as Hgen.
  { induction l as [|r l IH]; intros Hl; [done|].
    assert (video_id r ∈ ids) as Hr by (apply Hl; left).
    rewrite filter_cons. csimpl. rewrite <- IH by (intros; apply Hl; by right).
    unfold rejoin_one, Map_has.
    pose proof (by_ids_Map_get db ids (video_id r) Hr) as Hget.
    unfold Map_get in Hget.
    destruct (last (filter (λ v, vid v = video_id r) (Videos db))) as [v|] eqn:Hlast.
    - case_decide as Hd.
      + csimpl. unfold Map_get. by rewrite Hget.
      + exfalso. apply Hd. apply bool_decide_eq_true. rewrite Hget. by eexists.
    - case_decide as Hd; [|done].
      apply bool_decide_eq_true in Hd. rewrite Hget in Hd. simpl in Hd.
      by destruct Hd. }
  apply Hgen. intros r Hr. apply list_elem_of_fmap. eauto.
Qed.

(** X9. The re-join treats each ranked item on its own: the answer to
    a concatenation of two ranked lists is the concatenation of the
    answers, an item is kept exactly when some stored video has its id,
    and an item repeated in the ranked list is repeated in the answer. *)
Theorem orderedResults_compositional db l1 l2 :
  orderedResults db (l1 ++ l2) = (orderedResults db l1 ++ orderedResults db l2)%list
  ∧ (∀ r, orderedResults db [r] = [] ↔ ¬ in_catalog db (video_id r))
  ∧ (∀ r, orderedResults db [r; r] = (orderedResults db [r] ++ orderedResults db [r])%list).
Proof.
  split_and!.
  - rewrite !orderedResults_itemwise. apply omap_app.
  - intros r. rewrite orderedResults_itemwise. csimpl. unfold rejoin_one.
    rewrite <- Video_findById_None. unfold Video_findById.
    destruct (filter (λ v, vid v = video_id r) (Videos db)) as [|a f'] using rev_ind.
    + done.
    + rewrite last_snoc. csimpl. split; [done|]. by destruct f'.
  - intros r. rewrite !orderedResults_itemwise. csimpl.
    by destruct (rejoin_one db r).
Qed.

(** ** The exclusion list *)

Lemma Set_add_fresh s x : x ∉ s → Set_add s x = (s ++ [x])%list.
Proof. intros Hx. unfold Set_add. by case_decide. Qed.

Lemma foldl_Set_add_NoDup_app l s :
  NoDup (s ++ l) → foldl Set_add s l = (s ++ l)%list.
Proof.
  revert s. induction l as [|x l IH]; intros s Hnd; simpl; [by rewrite app_nil_r|].
  rewrite Set_add_fresh.
  - rewrite IH; rewrite <- app_assoc; done.
  - apply NoDup_app in Hnd as (_ & Hdisj & _). intros Hx. apply (Hdisj x Hx). left.
Qed.

(** X10. The exclusion list keeps the first occurrence of each id, in
    order: it is the watched ids followed by the liked ids unchanged
    exactly when no id occurs twice among them, and building it again
    from itself changes nothing. *)
Theorem new_Set_keeps_first_occurrences (l : list string) :
  (new_Set l = l ↔ NoDup l)
  ∧ new_Set (new_Set l) = new_Set l
  ∧ (∀ x, new_Set (l ++ [x])
          = if decide (x ∈ l) then new_Set l else (new_Set l ++ [x])%list).
Proof.
  assert (∀ k, NoDup k → new_Set k = k) as Hfix.
  { intros k Hk. unfold new_Set. by rewrite foldl_Set_add_NoDup_app. }
  split_and!.
  - split; [intros <-; apply new_Set_NoDup | apply Hfix].
  - apply Hfix, new_Set_NoDup.
  - intros x. unfold new_Set at 1. rewrite foldl_app. simpl.
    fold (new_Set l). unfold Set_add.
    destruct (decide (x ∈ l)) as [Hx|Hx]; case_decide as Hs; try done.
    + exfalso. apply Hs. by apply new_Set_elem_of.
    + exfalso. apply Hx. by apply new_Set_elem_of.
Qed.

(** ** Every answer lists stored videos *)

Lemma rejoined_docs db out flt :
  Forall2 (rejoined db) out flt →
  Forall (λ o, ∃ v, v ∈ Videos db ∧ o = Some (lookup_owner db v)) (sv_video <$> out).
Proof.
  induction 1 as [|e r out flt [(v & Hv & _ & Hd) _] _ IH]; csimpl;
    constructor; eauto.
Qed.

Lemma pipeline_docs db (R : relation Video) `{∀ a b, Decision (R a b)}
  (P : Video → Prop) `{∀ v, Decision (P v)} limit :
  Forall (λ o, ∃ v, v ∈ Videos db ∧ o = Some (lookup_owner db v))
    (Some <$> (lookup_owner db <$> limit_stage limit (sort_stage R (filter P (Videos db))))).
Proof.
  apply Forall_forall. intros o Ho.
  apply list_elem_of_fmap in Ho as (d & -> & Hd).
  apply list_elem_of_fmap in Hd as (v & -> & Hv).
  apply limit_stage_elem_of in Hv. unfold sort_stage in Hv.
  rewrite merge_sort_Permutation in Hv.
  apply list_elem_of_filter in Hv as [_ Hv]. eauto.
Qed.

(** X11. Whatever the store, the request and the service, every entry
    of an answer of [getRecommendations] carries the document of a
    stored video, decorated with its owner card: no entry is answered
    without a video, and no video is answered that the store does not
    hold. *)
Theorem answers_list_stored_videos db req svc :
  ∃ resp,
    (run (getRecommendations db req) svc).1 = Normal resp
    ∧ Forall (λ o, ∃ v, v ∈ Videos db ∧ o = Some (lookup_owner db v))
        (answer_docs (data (body resp))).
Proof.
  unfold run.
  destruct (getRecommendations_cases db req svc)
    as [[Hw Hl] | [[Hh Hlack] | (Hh & p & ranked & Hr & Hp)]].
  - rewrite (getRecommendations_tier1 db req svc quiet Hw Hl).
    eexists. split; [reflexivity|]. simpl. apply pipeline_docs.
  - rewrite (getRecommendations_tier2 db req svc quiet Hh Hlack).
    eexists. split; [reflexivity|]. simpl. apply pipeline_docs.
  - rewrite (getRecommendations_success db req svc quiet p ranked Hh Hr Hp).
    eexists. split; [reflexivity|]. simpl.
    eapply rejoined_docs, orderedResults_spec.
Qed.

(** X12. The caller of [getRecommendations] cannot tell one failure of
    the external service from another: for a user with history, a
    rejected request, an empty body and a body without
    [recommendations] all give the same response. *)
Theorem failures_indistinguishable db req svc1 svc2 :
  has_history db (req_user_id req) →
  lacks_ranked_list (on_personalized svc1 (request_of db req)) →
  lacks_ranked_list (on_personalized svc2 (request_of db req)) →
  (run (getRecommendations db req) svc1).1 = (run (getRecommendations db req) svc2).1.
Proof.
  intros Hh H1 H2. unfold run.
  by rewrite (getRecommendations_tier2 db req svc1 quiet Hh H1),
             (getRecommendations_tier2 db req svc2 quiet Hh H2).
Qed.

Lemma failures_indistinguishable_witness :
  (run (getRecommendations Scenario.catalog_a Scenario.as_U1) Scenario.unreachable).1
  = (run (getRecommendations Scenario.catalog_a Scenario.as_U1)
         (Scenario.answering (Some (mkPersonalizedPayload None 0 0)) None)).1.
Proof.
  apply (failures_indistinguishable Scenario.catalog_a Scenario.as_U1
           Scenario.unreachable
           (Scenario.answering (Some (mkPersonalizedPayload None 0 0)) None)).
  - left. vm_compute. discriminate.
  - exact I.
  - reflexivity.
Defined.

(** ** The video controller *)

Lemma update_first_ids id (f : Video → Video) l :
  (∀ v, vid (f v) = vid v) → vid <$> update_first id f l = vid <$> l.
Proof.
  intros Hf. induction l as [|v l IH]; [done|]. simpl.
  case_decide; csimpl; [by rewrite Hf | by rewrite IH].
Qed.

Lemma update_first_other id (f : Video → Video) l v :
  vid v ≠ id → v ∈ l → v ∈ update_first id f l.
Proof.
  intros Hne. induction l as [|a l IH]; [done|]. simpl.
  intros [->|Hin]%elem_of_cons.
  - rewrite decide_False by done. left.
  - case_decide; right; [done | by apply IH].
Qed.

Lemma update_first_elem_of id (f : Video → Video) l v :
  v ∈ update_first id f l →
  v ∈ l ∨ ∃ v0, v0 ∈ l ∧ vid v0 = id ∧ v = f v0.
Proof.
  induction l as [|a l IH]; [by intros ?%elem_of_nil|]. simpl. case_decide as Ha.
  - intros [->|Hin]%elem_of_cons.
    + right. exists a. split_and!; [left | done | done].
    + left. by right.
  - intros [->|Hin]%elem_of_cons; [left; left|].
    destruct (IH Hin) as [?|(v0 & ? & ? & ?)]; [left; by right|].
    right. exists v0. split_and!; [by right | done | done].
Qed.

Lemma update_first_findById id (f : Video → Video) db :
  (∀ v, vid (f v) = vid v) →
  head (filter (λ v, vid v = id) (update_first id f (Videos db)))
  = f <$> Video_findById db id.
Proof.
  intros Hf. unfold Video_findById.
  induction (Videos db) as [|a l IH]; [done|]. simpl. case_decide as Ha.
  - rewrite !filter_cons. rewrite !decide_True by (by rewrite ?Hf). done.
  - rewrite !filter_cons. rewrite !decide_False by done. exact IH.
Qed.

Lemma update_first_twice id (f g : Video → Video) l :
  (∀ v, vid (f v) = vid v) →
  update_first id g (update_first id f l) = update_first id (g ∘ f) l.
Proof.
  intros Hf. induction l as [|a l IH]; [done|]. simpl. case_decide as Ha; simpl.
  - by rewrite decide_True by (by rewrite Hf).
  - by rewrite decide_False, IH by done.
Qed.

Lemma update_first_id id (f : Video → Video) l :
  (∀ v, v ∈ l → vid v = id → f v = v) → update_first id f l = l.
Proof.
  induction l as [|a l IH]; [done|]. intros Hf. simpl. case_decide as Ha.
  - rewrite Hf; [done | left | done].
  - rewrite IH; [done|]. intros v Hv. apply Hf. by right.
Qed.

Lemma update_first_ext id (f g : Video → Video) l :
  (∀ v, v ∈ l → vid v = id → f v = g v) → update_first id f l = update_first id g l.
Proof.
  induction l as [|a l IH]; [done|]. intros Hf. simpl. case_decide as Ha.
  - rewrite Hf; [done | left | done].
  - rewrite IH; [done|]. intros v Hv. apply Hf. by right.
Qed.

Lemma filter_all {A} (P : A → Prop) `{∀ x, Decision (P x)} (l : list A) :
  (∀ x, x ∈ l → P x) → filter P l = l.
Proof.
  induction l as [|a l IH]; [done|]. intros Hall.
  rewrite filter_cons, decide_True by (apply Hall; left).
  rewrite IH; [done|]. intros x Hx. apply Hall. by right.
Qed.

Lemma remove_first_NoDup id l :
  NoDup (vid <$> l) → remove_first id l = filter (λ v, vid v ≠ id) l.
Proof.
  induction l as [|a l IH]; [done|]. csimpl. intros [Hna Hnd]%NoDup_cons.
  rewrite filter_cons. case_decide as Ha.
  - rewrite decide_False by (intros Hc; by apply Hc).
    symmetry. apply filter_all. intros v Hv Hvid. apply Hna.
    rewrite Ha, <- Hvid. apply list_elem_of_fmap. eauto.
  - rewrite decide_True by done. by rewrite IH.
Qed.

Lemma remove_first_absent id l : id ∉ vid <$> l → remove_first id l = l.
Proof.
  induction l as [|a l IH]; [done|]. csimpl. intros Hn.
  rewrite decide_False by (intros Hc; apply Hn; rewrite Hc; left).
  rewrite IH; [done|]. intros Hc. apply Hn. by right.
Qed.

Lemma remove_first_sublist id l : remove_first id l `sublist_of` l.
Proof.
  induction l as [|a l IH]; [done|]. simpl. case_decide.
  - by apply sublist_cons.
  - by apply sublist_skip.
Qed.

Lemma remove_first_length id l :
  id ∈ vid <$> l → (length (remove_first id l) + 1 = length l)%nat.
Proof.
  induction l as [|a l IH]; [by intros ?%elem_of_nil|]. csimpl.
  intros Hin. case_decide as Ha; [lia|]. simpl.
  apply elem_of_cons in Hin as [Hin|Hin]; [congruence|]. rewrite <- IH by done. lia.
Qed.

Ltac store_unfold :=
  unfold mbind, Store_bind, query, raise, reply, mret, Store_ret,
    Video_findByIdAndUpdate, Video_findByIdAndDelete; simpl.

(** X13. [deleteVideo] rejects a malformed id with 400, an id no stored
    video has with 404 and a user who is not the owner with 403, and in
    these cases leaves the store as it was.  For the owner it answers
    200 with the id and removes one video: users and likes are
    untouched, the remaining videos keep their order, and when the
    stored ids are unique the videos left are exactly those with another
    id, so the id no longer resolves. *)
Theorem deleteVideo_outcomes (isValidObjectId : string → bool) db req :
  (isValidObjectId (video_params_videoId req) = false →
     deleteVideo isValidObjectId req db =
     (Refused (RaisedApiError 400 "Invalid video ID"), db))
  ∧ (isValidObjectId (video_params_videoId req) = true →
     ¬ in_catalog db (video_params_videoId req) →
     deleteVideo isValidObjectId req db =
     (Refused (RaisedApiError 404 "Video not found"), db))
  ∧ (isValidObjectId (video_params_videoId req) = true →
     ∀ video, Video_findById db (video_params_videoId req) = Some video →
       owner video ≠ video_req_user_id req →
       deleteVideo isValidObjectId req db =
       (Refused (RaisedApiError 403 "You are not authorized to delete this video"), db))
  ∧ (isValidObjectId (video_params_videoId req) = true →
     ∀ video, Video_findById db (video_params_videoId req) = Some video →
       owner video = video_req_user_id req →
       ∃ db',
         deleteVideo isValidObjectId req db =
         (Fulfilled (mkHttpResponse 200 (mkApiResponse 200 (video_params_videoId req)
                       "Video deleted successfully")), db')
         ∧ Users db' = Users db ∧ Likes db' = Likes db
         ∧ Videos db' `sublist_of` Videos db
         ∧ (length (Videos db') + 1 = length (Videos db))%nat
         ∧ (NoDup (vid <$> Videos db) →
            Videos db' = filter (λ v, vid v ≠ video_params_videoId req) (Videos db)
            ∧ ¬ in_catalog db' (video_params_videoId req))).
Proof.
  split_and!.
  - intros Hv. unfold deleteVideo. by rewrite Hv.
  - intros Hv Hno%Video_findById_None. unfold deleteVideo. rewrite Hv. store_unfold.
    by rewrite Hno.
  - intros Hv video Hf Hown. unfold deleteVideo. rewrite Hv. store_unfold.
    rewrite Hf. by rewrite bool_decide_eq_true_2.
  - intros Hv video Hf Hown. unfold deleteVideo. rewrite Hv. store_unfold.
    rewrite Hf. rewrite bool_decide_eq_false_2 by (intros Hc; by apply Hc).
    store_unfold. eexists. split; [reflexivity|]. simpl.
    split_and!; [done | done | apply remove_first_sublist | |].
    + apply remove_first_length. apply Video_findById_Some in Hf as [Hin <-].
      apply list_elem_of_fmap. eauto.
    + intros Hnd. split; [by apply remove_first_NoDup|].
      unfold in_catalog. simpl. rewrite remove_first_NoDup by done.
      intros (v & Hid & [Hne _]%list_elem_of_filter)%list_elem_of_fmap. done.
Qed.

Lemma deleteVideo_outcomes_witness :
  deleteVideo Scenario.two_chars (mkVideoRequest "video-7" "O1") Scenario.catalog_b =
    (Refused (RaisedApiError 400 "Invalid video ID"), Scenario.catalog_b)
  ∧ deleteVideo Scenario.two_chars (mkVideoRequest "V9" "O1") Scenario.catalog_b =
    (Refused (RaisedApiError 404 "Video not found"), Scenario.catalog_b)
  ∧ deleteVideo Scenario.two_chars (mkVideoRequest "V7" "U1") Scenario.catalog_b =
    (Refused (RaisedApiError 403 "You are not authorized to delete this video"),
     Scenario.catalog_b)
  ∧ ∃ db',
      deleteVideo Scenario.two_chars (mkVideoRequest "V7" "O1") Scenario.catalog_b =
      (Fulfilled (mkHttpResponse 200 (mkApiResponse 200 "V7" "Video deleted successfully")),
       db')
      ∧ Users db' = Users Scenario.catalog_b ∧ Likes db' = Likes Scenario.catalog_b
      ∧ Videos db' `sublist_of` Videos Scenario.catalog_b
      ∧ (length (Videos db') + 1 = length (Videos Scenario.catalog_b))%nat
      ∧ (NoDup (vid <$> Videos Scenario.catalog_b) →
         Videos db' = filter (λ v, vid v ≠ "V7") (Videos Scenario.catalog_b)
         ∧ ¬ in_catalog db' "V7").
Proof.
  split_and!.
  - apply (deleteVideo_outcomes Scenario.two_chars Scenario.catalog_b
             (mkVideoRequest "video-7" "O1")). reflexivity.
  - apply (deleteVideo_outcomes Scenario.two_chars Scenario.catalog_b
             (mkVideoRequest "V9" "O1")); [reflexivity | compute_done].
  - refine (proj1 (proj2 (proj2 (deleteVideo_outcomes Scenario.two_chars
              Scenario.catalog_b (mkVideoRequest "V7" "U1")))) _ Scenario.V7 _ _);
      [reflexivity | reflexivity | discriminate].
  - refine (proj2 (proj2 (proj2 (deleteVideo_outcomes Scenario.two_chars
              Scenario.catalog_b (mkVideoRequest "V7" "O1")))) _ Scenario.V7 _ _);
      reflexivity.
Defined.

(** X14. [togglePublishStatus] rejects a malformed id with 400, an id no
    stored video has with 404 and a user who is not the owner with 403,
    and in these cases leaves the store as it was. *)
Theorem togglePublishStatus_rejections (isValidObjectId : string → bool) db req :
  (isValidObjectId (video_params_videoId req) = false →
     togglePublishStatus isValidObjectId req db =
     (Refused (RaisedApiError 400 "Invalid video ID"), db))
  ∧ (isValidObjectId (video_params_videoId req) = true →
     ¬ in_catalog db (video_params_videoId req) →
     togglePublishStatus isValidObjectId req db =
     (Refused (RaisedApiError 404 "Video not found"), db))
  ∧ (isValidObjectId (video_params_videoId req) = true →
     ∀ video, Video_findById db (video_params_videoId req) = Some video →
       owner video ≠ video_req_user_id req →
       togglePublishStatus isValidObjectId req db =
       (Refused (RaisedApiError 403 "You are not authorized to update this video"), db)).
Proof.
  split_and!.
  - intros Hv. unfold togglePublishStatus. by rewrite Hv.
  - intros Hv Hno%Video_findById_None. unfold togglePublishStatus. rewrite Hv.
    store_unfold. by rewrite Hno.
  - intros Hv video Hf Hown. unfold togglePublishStatus. rewrite Hv. store_unfold.
    rewrite Hf. by rewrite bool_decide_eq_true_2.
Qed.

Lemma togglePublishStatus_rejections_witness :
  togglePublishStatus Scenario.two_chars (mkVideoRequest "video-7" "O1") Scenario.catalog_b =
    (Refused (RaisedApiError 400 "Invalid video ID"), Scenario.catalog_b)
  ∧ togglePublishStatus Scenario.two_chars (mkVideoRequest "V9" "O1") Scenario.catalog_b =
    (Refused (RaisedApiError 404 "Video not found"), Scenario.catalog_b)
  ∧ togglePublishStatus Scenario.two_chars (mkVideoRequest "V7" "U1") Scenario.catalog_b =
    (Refused (RaisedApiError 403 "You are not authorized to update this video"),
     Scenario.catalog_b).
Proof.
  split_and!.
  - apply (togglePublishStatus_rejections Scenario.two_chars Scenario.catalog_b
             (mkVideoRequest "video-7" "O1")). reflexivity.
  - apply (togglePublishStatus_rejections Scenario.two_chars Scenario.catalog_b
             (mkVideoRequest "V9" "O1")); [reflexivity | compute_done].
  - refine (proj2 (proj2 (togglePublishStatus_rejections Scenario.two_chars
              Scenario.catalog_b (mkVideoRequest "V7" "U1"))) _ Scenario.V7 _ _);
      [reflexivity | reflexivity | discriminate].
Defined.

Lemma togglePublishStatus_success (isValidObjectId : string → bool) db req video :
  isValidObjectId (video_params_videoId req) = true →
  Video_findById db (video_params_videoId req) = Some video →
  owner video = video_req_user_id req →
  togglePublishStatus isValidObjectId req db =
  (Fulfilled (mkHttpResponse 200 (mkApiResponse 200
     (set_isPublished (negb (isPublished video)) video)
     (if isPublished video then "Video unpublished successfully"
      else "Video published successfully"))),
   {| Videos := update_first (video_params_videoId req)
                  (set_isPublished (negb (isPublished video))) (Videos db);
      Users := Users db; Likes := Likes db |}).
Proof.
  intros Hv Hf Hown. unfold togglePublishStatus. rewrite Hv. store_unfold.
  rewrite Hf. rewrite bool_decide_eq_false_2 by (intros Hc; by apply Hc).
  store_unfold. rewrite Hf. simpl. by destruct (isPublished video).
Qed.

(** X15. For its owner, [togglePublishStatus] answers 200 with the
    stored video after the update: its [isPublished] flag is inverted,
    its id, owner, title, description, views and creation time are those
    of the video found, and the message names the new state.  The store
    then resolves the id to the answered document, holds the same ids in
    the same order, and every video with another id, every user and
    every like is as before. *)
Theorem togglePublishStatus_flips_one (isValidObjectId : string → bool) db req video :
  isValidObjectId (video_params_videoId req) = true →
  Video_findById db (video_params_videoId req) = Some video →
  owner video = video_req_user_id req →
  ∃ updated msg db',
    togglePublishStatus isValidObjectId req db =
      (Fulfilled (mkHttpResponse 200 (mkApiResponse 200 updated msg)), db')
    ∧ isPublished updated = negb (isPublished video)
    ∧ vid updated = vid video ∧ owner updated = owner video
    ∧ title updated = title video ∧ description updated = description video
    ∧ views updated = views video ∧ createdAt updated = createdAt video
    ∧ msg = (if isPublished updated then "Video published successfully"
             else "Video unpublished successfully")
    ∧ Video_findById db' (video_params_videoId req) = Some updated
    ∧ vid <$> Videos db' = vid <$> Videos db
    ∧ (∀ v, vid v ≠ video_params_videoId req → v ∈ Videos db' ↔ v ∈ Videos db)
    ∧ Users db' = Users db ∧ Likes db' = Likes db.
Proof.
  intros Hv Hf Hown.
  rewrite (togglePublishStatus_success _ db req video Hv Hf Hown).
  eexists _, _, _. split; [reflexivity|].
  split_and!; try done.
  - simpl. by destruct (isPublished video).
  - unfold Video_findById at 1. simpl.
    rewrite update_first_findById by done. by rewrite Hf.
  - simpl. by apply update_first_ids.
  - intros v Hne. simpl. split.
    + intros [Hin|(v0 & _ & Hid & ->)]%update_first_elem_of; [done|].
      by destruct Hne.
    + by apply update_first_other.
Qed.

Lemma togglePublishStatus_flips_one_witness :
  ∃ updated msg db',
    togglePublishStatus Scenario.two_chars (mkVideoRequest "V7" "O1") Scenario.catalog_b =
      (Fulfilled (mkHttpResponse 200 (mkApiResponse 200 updated msg)), db')
    ∧ isPublished updated = negb (isPublished Scenario.V7)
    ∧ vid updated = vid Scenario.V7 ∧ owner updated = owner Scenario.V7
    ∧ title updated = title Scenario.V7 ∧ description updated = description Scenario.V7
    ∧ views updated = views Scenario.V7 ∧ createdAt updated = createdAt Scenario.V7
    ∧ msg = (if isPublished updated then "Video published successfully"
             else "Video unpublished successfully")
    ∧ Video_findById db' "V7" = Some updated
    ∧ vid <$> Videos db' = vid <$> Videos Scenario.catalog_b
    ∧ (∀ v, vid v ≠ "V7" → v ∈ Videos db' ↔ v ∈ Videos Scenario.catalog_b)
    ∧ Users db' = Users Scenario.catalog_b ∧ Likes db' = Likes Scenario.catalog_b.
Proof.
  apply (togglePublishStatus_flips_one Scenario.two_chars Scenario.catalog_b
           (mkVideoRequest "V7" "O1") Scenario.V7); reflexivity.
Defined.

Lemma update_first_fixes_head id (h : Video → Video) l v0 :
  head (filter (λ v, vid v = id) l) = Some v0 → h v0 = v0 → update_first id h l = l.
Proof.
  intros Hhd Hh. induction l as [|a l IH]; [done|]. simpl.
  rewrite filter_cons in Hhd. case_decide as Ha.
  - simpl in Hhd. injection Hhd as ->. by rewrite Hh.
  - by rewrite IH.
Qed.

(** X16. Toggling twice restores the publication state: when the owner
    toggles a video and then toggles it again, both requests are
    answered 200, the first with the flag inverted and the second with
    the flag the video had at first; afterwards every stored video has
    the id and the flag it had before the first request, in the same
    order, so the published videos are the same as before. *)
Theorem togglePublishStatus_twice (isValidObjectId : string → bool) db req video :
  isValidObjectId (video_params_videoId req) = true →
  Video_findById db (video_params_videoId req) = Some video →
  owner video = video_req_user_id req →
  ∃ v1 msg1 db1 v2 msg2 db2,
    togglePublishStatus isValidObjectId req db =
      (Fulfilled (mkHttpResponse 200 (mkApiResponse 200 v1 msg1)), db1)
    ∧ togglePublishStatus isValidObjectId req db1 =
      (Fulfilled (mkHttpResponse 200 (mkApiResponse 200 v2 msg2)), db2)
    ∧ isPublished v1 = negb (isPublished video)
    ∧ isPublished v2 = isPublished video
    ∧ (λ v, (vid v, isPublished v)) <$> Videos db2
      = (λ v, (vid v, isPublished v)) <$> Videos db
    ∧ vid <$> Video_find_published db2 = vid <$> Video_find_published db.
Proof.
  intros Hv Hf Hown.
  rewrite (togglePublishStatus_success _ db req video Hv Hf Hown).
  set (db1 := {| Videos := _; Users := _; Likes := _ |}).
  assert (Video_findById db1 (video_params_videoId req)
          = Some (set_isPublished (negb (isPublished video)) video)) as Hf1.
  { unfold Video_findById, db1. simpl.
    rewrite update_first_findById by done. by rewrite Hf. }
  eexists _, _, db1, _, _, _. split; [reflexivity|].
  rewrite (togglePublishStatus_success _ db1 req _ Hv Hf1 Hown).
  split; [reflexivity|].
  assert (update_first (video_params_videoId req)
            (set_isPublished (negb (isPublished
               (set_isPublished (negb (isPublished video)) video))))
            (Videos db1) = Videos db) as Hback.
  { unfold db1. simpl. rewrite negb_involutive.
    rewrite update_first_twice by done.
    apply (update_first_fixes_head _ _ _ video); [exact Hf|]. by destruct video. }
  unfold Video_find_published, db1 in *. simpl in *.
  split_and!; [done | apply negb_involutive | by rewrite Hback..].
Qed.

Lemma togglePublishStatus_twice_witness :
  ∃ v1 msg1 db1 v2 msg2 db2,
    togglePublishStatus Scenario.two_chars (mkVideoRequest "V7" "O1") Scenario.catalog_b =
      (Fulfilled (mkHttpResponse 200 (mkApiResponse 200 v1 msg1)), db1)
    ∧ togglePublishStatus Scenario.two_chars (mkVideoRequest "V7" "O1") db1 =
      (Fulfilled (mkHttpResponse 200 (mkApiResponse 200 v2 msg2)), db2)
    ∧ isPublished v1 = negb (isPublished Scenario.V7)
    ∧ isPublished v2 = isPublished Scenario.V7
    ∧ (λ v, (vid v, isPublished v)) <$> Videos db2
      = (λ v, (vid v, isPublished v)) <$> Videos Scenario.catalog_b
    ∧ vid <$> Video_find_published db2 = vid <$> Video_find_published Scenario.catalog_b.
Proof.
  apply (togglePublishStatus_twice Scenario.two_chars Scenario.catalog_b
           (mkVideoRequest "V7" "O1") Scenario.V7); reflexivity.
Defined.

Lemma unique_by_id (l : list Video) v1 v2 :
  NoDup (vid <$> l) → v1 ∈ l → v2 ∈ l → vid v1 = vid v2 → v1 = v2.
Proof.
  intros Hnd [i Hi]%list_elem_of_lookup [j Hj]%list_elem_of_lookup Heq.
  assert (i = j) as ->.
  { eapply NoDup_lookup; [exact Hnd| |].
    - rewrite list_lookup_fmap, Hi. reflexivity.
    - rewrite list_lookup_fmap, Hj. simpl. by rewrite Heq. }
  congruence.
Qed.

(** X17. [getVideoById] rejects a malformed id with 400 and an id no
    stored video has with 404, leaving the store as it was.  For a
    stored video it answers 200 with the document as it was before this
    view, decorated with its owner card, and counts the view: afterwards
    the id resolves to the same video with one more view, and the ids in
    the store and every video with another id are as before. *)
Theorem getVideoById_counts_one_view (isValidObjectId : string → bool) db req :
  (isValidObjectId (video_params_videoId req) = false →
     getVideoById isValidObjectId req db =
     (Refused (RaisedApiError 400 "Invalid video ID"), db))
  ∧ (isValidObjectId (video_params_videoId req) = true →
     ¬ in_catalog db (video_params_videoId req) →
     getVideoById isValidObjectId req db =
     (Refused (RaisedApiError 404 "Video not found"), db))
  ∧ (isValidObjectId (video_params_videoId req) = true →
     ∀ video, Video_findById db (video_params_videoId req) = Some video →
       ∃ db',
         getVideoById isValidObjectId req db =
         (Fulfilled (mkHttpResponse 200 (mkApiResponse 200 (lookup_owner db video)
                       "Video fetched successfully")), db')
         ∧ Video_findById db' (video_params_videoId req)
           = Some {| vid := vid video; owner := owner video; title := title video;
                     description := description video; views := views video + 1;
                     createdAt := createdAt video; isPublished := isPublished video |}
         ∧ vid <$> Videos db' = vid <$> Videos db
         ∧ (∀ v, vid v ≠ video_params_videoId req → v ∈ Videos db' ↔ v ∈ Videos db)
         ∧ Users db' = Users db ∧ Likes db' = Likes db).
Proof.
  split_and!.
  - intros Hv. unfold getVideoById. by rewrite Hv.
  - intros Hv Hno%Video_findById_None. unfold getVideoById. rewrite Hv. store_unfold.
    unfold Video_findById in Hno.
    by destruct (filter (λ v, vid v = video_params_videoId req) (Videos db)).
  - intros Hv video Hf. unfold getVideoById. rewrite Hv. store_unfold.
    pose proof Hf as Hf'. unfold Video_findById in Hf'.
    destruct (filter (λ v, vid v = video_params_videoId req) (Videos db))
      as [|first rest] eqn:Hfl; [done|].
    simpl in Hf'. injection Hf' as ->. csimpl.
    eexists. split; [reflexivity|]. simpl. split_and!; try done.
    + unfold Video_findById. simpl. rewrite update_first_findById by done.
      by rewrite Hf.
    + by apply update_first_ids.
    + intros v Hne. split.
      * intros [Hin|(v0 & _ & Hid & ->)]%update_first_elem_of; [done|].
        by destruct Hne.
      * by apply update_first_other.
Qed.

Lemma getVideoById_counts_one_view_witness :
  getVideoById Scenario.two_chars (mkVideoRequest "video-7" "U1") Scenario.catalog_b =
    (Refused (RaisedApiError 400 "Invalid video ID"), Scenario.catalog_b)
  ∧ getVideoById Scenario.two_chars (mkVideoRequest "V9" "U1") Scenario.catalog_b =
    (Refused (RaisedApiError 404 "Video not found"), Scenario.catalog_b)
  ∧ ∃ db',
      getVideoById Scenario.two_chars (mkVideoRequest "V7" "U1") Scenario.catalog_b =
      (Fulfilled (mkHttpResponse 200 (mkApiResponse 200
                    (lookup_owner Scenario.catalog_b Scenario.V7)
                    "Video fetched successfully")), db')
      ∧ Video_findById db' "V7"
        = Some {| vid := vid Scenario.V7; owner := owner Scenario.V7;
                  title := title Scenario.V7; description := description Scenario.V7;
                  views := views Scenario.V7 + 1; createdAt := createdAt Scenario.V7;
                  isPublished := isPublished Scenario.V7 |}
      ∧ vid <$> Videos db' = vid <$> Videos Scenario.catalog_b
      ∧ (∀ v, vid v ≠ "V7" → v ∈ Videos db' ↔ v ∈ Videos Scenario.catalog_b)
      ∧ Users db' = Users Scenario.catalog_b ∧ Likes db' = Likes Scenario.catalog_b.
Proof.
  split_and!.
  - apply (getVideoById_counts_one_view Scenario.two_chars Scenario.catalog_b
             (mkVideoRequest "video-7" "U1")). reflexivity.
  - apply (getVideoById_counts_one_view Scenario.two_chars Scenario.catalog_b
             (mkVideoRequest "V9" "U1")); [reflexivity | compute_done].
  - refine (proj2 (proj2 (getVideoById_counts_one_view Scenario.two_chars
              Scenario.catalog_b (mkVideoRequest "V7" "U1"))) _ Scenario.V7 _);
      reflexivity.
Defined.

(** ** The video controller and the recommendations together *)

Lemma answer_ids_in_catalog db req svc :
  ∃ resp,
    (run (getRecommendations db req) svc).1 = Normal resp
    ∧ ∀ id, Some id ∈ answer_ids (data (body resp)) → in_catalog db id.
Proof.
  assert (∀ (R : relation Video) `{∀ a b, Decision (R a b)}
            (P : Video → Prop) `{∀ v, Decision (P v)} limit id,
            Some id ∈ (λ v, Some (vid (doc v)))
                        <$> (lookup_owner db <$>
                               limit_stage limit (sort_stage R (filter P (Videos db)))) →
            in_catalog db id) as Hpipe.
  { intros R ? P ? limit id Hin.
    apply list_elem_of_fmap in Hin as (d & [= ->] & Hd).
    apply list_elem_of_fmap in Hd as (v & -> & Hv).
    apply limit_stage_elem_of in Hv. unfold sort_stage in Hv.
    rewrite merge_sort_Permutation in Hv.
    apply list_elem_of_filter in Hv as [_ Hv].
    unfold in_catalog. apply list_elem_of_fmap. by exists v. }
  unfold run.
  destruct (getRecommendations_cases db req svc)
    as [[Hw Hl] | [[Hh Hlack] | (Hh & p & ranked & Hr & Hp)]].
  - rewrite (getRecommendations_tier1 db req svc quiet Hw Hl).
    eexists. split; [reflexivity|]. simpl. apply Hpipe.
  - rewrite (getRecommendations_tier2 db req svc quiet Hh Hlack).
    eexists. split; [reflexivity|]. simpl. apply Hpipe.
  - rewrite (getRecommendations_success db req svc quiet p ranked Hh Hr Hp).
    eexists. split; [reflexivity|]. simpl.
    rewrite (rejoined_ids db _ _ (orderedResults_spec db ranked)).
    intros id Hin. apply list_elem_of_fmap in Hin as (r & [= ->] & Hr').
    by apply list_elem_of_filter in Hr' as [? _].
Qed.

Lemma fallback_entries_published db req svc resp out fb reason :
  (run (getRecommendations db req) svc).1 = Normal resp →
  data (body resp) = PopularData out fb reason →
  ∀ d, d ∈ out → isPublished (doc d) = true ∧ doc d ∈ Videos db.
Proof.
  intros Hrun Hdata d Hd. unfold run in Hrun.
  assert (doc d ∈ fallback_candidates db (req_user_id req)) as Hc.
  { assert (doc d ∈ doc <$> out) as Hdd by (apply list_elem_of_fmap; eauto).
    eapply ranked_prefix_elem_of; [|exact Hdd]. clear Hdd.
    destruct (getRecommendations_cases db req svc)
      as [[Hw Hl] | [[Hh Hlack] | (Hh & p & ranked & Hr & Hp)]].
    - rewrite (getRecommendations_tier1 db req svc quiet Hw Hl) in Hrun.
      simpl in Hrun. injection Hrun as <-. simpl in Hdata.
      injection Hdata as <- <- <-.
      rewrite (fallback_candidates_no_history db _ Hw Hl).
      apply ranked_pipeline_spec; apply _.
    - rewrite (getRecommendations_tier2 db req svc quiet Hh Hlack) in Hrun.
      simpl in Hrun. injection Hrun as <-. simpl in Hdata.
      injection Hdata as <- <- <-.
      apply ranked_pipeline_spec; apply _.
    - rewrite (getRecommendations_success db req svc quiet p ranked Hh Hr Hp) in Hrun.
      simpl in Hrun. injection Hrun as <-. simpl in Hdata. discriminate Hdata. }
  apply list_elem_of_filter in Hc as [[? _] ?]. done.
Qed.

(** X18. Deleting takes a video out of the recommendations: once its
    owner has deleted a video (the stored ids being unique), no answer
    of [getRecommendations] lists its id, whatever the user, the limit
    and the external service, and [getSimilar] on that id throws 404
    without calling the service. *)
Theorem deleted_video_never_recommended
  (isValidObjectId : string → bool) db req video :
  NoDup (vid <$> Videos db) →
  isValidObjectId (video_params_videoId req) = true →
  Video_findById db (video_params_videoId req) = Some video →
  owner video = video_req_user_id req →
  ∃ r db',
    deleteVideo isValidObjectId req db = (Fulfilled r, db')
    ∧ (∀ rreq svc, ∃ resp,
         (run (getRecommendations db' rreq) svc).1 = Normal resp
         ∧ Some (video_params_videoId req) ∉ answer_ids (data (body resp)))
    ∧ (∀ limit svc,
         run (getSimilar isValidObjectId db'
                (mkSimilarRequest (video_params_videoId req) limit)) svc
         = (Abrupt (ApiError 404 "Video not found"), quiet)).
Proof.
  intros Hnd Hv Hf Hown.
  assert (deleteVideo isValidObjectId req db =
          (Fulfilled (mkHttpResponse 200 (mkApiResponse 200 (video_params_videoId req)
                        "Video deleted successfully")),
           {| Videos := remove_first (video_params_videoId req) (Videos db);
              Users := Users db; Likes := Likes db |})) as Hdel.
  { unfold deleteVideo. rewrite Hv. store_unfold. rewrite Hf.
    by rewrite bool_decide_eq_false_2 by (intros Hc; by apply Hc). }
  rewrite Hdel. eexists _, _. split; [reflexivity|].
  set (db' := {| Videos := _; Users := _; Likes := _ |}).
  assert (¬ in_catalog db' (video_params_videoId req)) as Hgone.
  { unfold in_catalog, db'. simpl. rewrite remove_first_NoDup by done.
    intros (v & Hid & [Hne _]%list_elem_of_filter)%list_elem_of_fmap. done. }
  split.
  - intros rreq svc. destruct (answer_ids_in_catalog db' rreq svc) as (resp & Hrun & Hids).
    exists resp. split; [done|]. intros Hin. by apply Hgone, Hids.
  - intros limit svc. unfold run. apply getSimilar_missing; [done|].
    by apply Video_findById_None.
Qed.

Lemma deleted_video_never_recommended_witness :
  ∃ r db',
    deleteVideo Scenario.two_chars (mkVideoRequest "V7" "O1") Scenario.catalog_b
    = (Fulfilled r, db')
    ∧ (∀ rreq svc, ∃ resp,
         (run (getRecommendations db' rreq) svc).1 = Normal resp
         ∧ Some "V7" ∉ answer_ids (data (body resp)))
    ∧ (∀ limit svc,
         run (getSimilar Scenario.two_chars db' (mkSimilarRequest "V7" limit)) svc
         = (Abrupt (ApiError 404 "Video not found"), quiet)).
Proof.
  apply (deleted_video_never_recommended Scenario.two_chars Scenario.catalog_b
           (mkVideoRequest "V7" "O1") Scenario.V7);
    [compute_done | reflexivity | reflexivity | reflexivity].
Defined.

(** X19. Unpublishing takes a video out of the fallbacks and of the
    sync batch: once its owner has toggled a published video (the stored
    ids being unique), no fallback answer of [getRecommendations] lists
    its id, and the batch of [syncVideoEmbeddings] has no entry for
    it. *)
Theorem unpublished_video_leaves_fallbacks
  (isValidObjectId : string → bool) db req video :
  NoDup (vid <$> Videos db) →
  isValidObjectId (video_params_videoId req) = true →
  Video_findById db (video_params_videoId req) = Some video →
  isPublished video = true →
  owner video = video_req_user_id req →
  ∃ r db',
    togglePublishStatus isValidObjectId req db = (Fulfilled r, db')
    ∧ (∀ rreq svc resp out fb reason,
         (run (getRecommendations db' rreq) svc).1 = Normal resp →
         data (body resp) = PopularData out fb reason →
         ∀ d, d ∈ out → vid (doc d) ≠ video_params_videoId req)
    ∧ video_params_videoId req ∉ in_video_id <$> videosForSync db'.
Proof.
  intros Hnd Hv Hf Hpub Hown.
  rewrite (togglePublishStatus_success _ db req video Hv Hf Hown).
  eexists _, _. split; [reflexivity|].
  set (db' := {| Videos := _; Users := _; Likes := _ |}).
  assert (∀ v, v ∈ Videos db' → vid v = video_params_videoId req →
               isPublished v = false) as Hoff.
  { intros v Hin Hid.
    assert (NoDup (vid <$> Videos db')) as Hnd'
      by (unfold db'; simpl; by rewrite update_first_ids).
    assert (Video_findById db' (video_params_videoId req)
            = Some (set_isPublished (negb (isPublished video)) video)) as Hf'.
    { unfold Video_findById, db'. simpl.
      rewrite update_first_findById by done. by rewrite Hf. }
    apply Video_findById_Some in Hf' as [Hin' Hid'].
    rewrite (unique_by_id (Videos db') v _ Hnd' Hin Hin') by congruence.
    simpl. by rewrite Hpub. }
  split.
  - intros rreq svc resp out fb reason Hrun Hdata d Hd Hid.
    destruct (fallback_entries_published db' rreq svc resp out fb reason Hrun Hdata d Hd)
      as [Hp Hin].
    rewrite (Hoff _ Hin Hid) in Hp. discriminate.
  - unfold videosForSync. rewrite <- list_fmap_compose.
    intros (v & Hid & [Hp Hin]%list_elem_of_filter)%list_elem_of_fmap.
    simpl in Hid. rewrite (Hoff v Hin) in Hp by done. discriminate.
Qed.

Lemma unpublished_video_leaves_fallbacks_witness :
  ∃ r db',
    togglePublishStatus Scenario.two_chars (mkVideoRequest "V7" "O1") Scenario.catalog_b
    = (Fulfilled r, db')
    ∧ (∀ rreq svc resp out fb reason,
         (run (getRecommendations db' rreq) svc).1 = Normal resp →
         data (body resp) = PopularData out fb reason →
         ∀ d, d ∈ out → vid (doc d) ≠ "V7")
    ∧ "V7" ∉ in_video_id <$> videosForSync db'.
Proof.
  apply (unpublished_video_leaves_fallbacks Scenario.two_chars Scenario.catalog_b
           (mkVideoRequest "V7" "O1") Scenario.V7);
    [compute_done | reflexivity | reflexivity | reflexivity | reflexivity].
Defined.
